(** * Tandem network of servers with feedback: embedding of [sim.ipynb]

    The notebook [src/sim.ipynb] defines [EventType], [servers_simulation],
    [metrics_by_simulation] and [run_simulation].  This file embeds them:
    - simulation time (a Python float) is a rational [Q];
    - the [PriorityQueue] is the list of its entries in insertion order,
      [put] appends and [get] removes a minimal entry for the Python tuple
      order on [(t, (e, c, i))];
    - the dicts [q[i]], [a[i]], [d[i]] are [gmap nat (list Q)];
    - exceptions are the [Raise] case of the result monad [res];
      [OutOfFuel] only bounds the [while] loop of the embedding;
    - the [random] module is an abstract generator [Rng G] with state [G]. *)

From Stdlib Require Import QArith Qround Lqa List Permutation Sorted Lia.
From stdpp Require Import base gmap list.

Open Scope Q_scope.

(** ** Results: Python exceptions *)

Inductive Exn := IndexError | ZeroDivisionError.

Inductive res (A : Type) : Type :=
| Ok (x : A)
| Raise (e : Exn)
| OutOfFuel.
Arguments Ok {A} x.
Arguments Raise {A} e.
Arguments OutOfFuel {A}.

#[global] Instance res_ret : MRet res := fun A x => Ok x.
#[global] Instance res_bind : MBind res := fun A B f m =>
  match m with
  | Ok x => f x
  | Raise e => Raise e
  | OutOfFuel => OutOfFuel
  end.

(** [l[i]] for a Python list [l] and a non-negative index [i]. *)
Definition py_get {A} (l : list A) (i : nat) : res A :=
  match l !! i with Some x => Ok x | None => Raise IndexError end.

(** [m.get(k, list())] *)
Definition dget (m : gmap nat (list Q)) (k : nat) : list Q :=
  default [] (m !! k).

Definition Qltb (x y : Q) : bool := negb (Qle_bool y x).

(** ** [EventType] and the event order *)

(** [class EventType(Enum)] with [auto()] values 1, 2, 3. *)
Inductive EventType := ASIGNED | ARRIVAL | FINISH.

Definition value (e : EventType) : nat :=
  match e with ASIGNED => 1 | ARRIVAL => 2 | FINISH => 3 end%nat.

(** [EventType.__lt__]: [self.value < other.value]. *)
Definition EventType_lt (e1 e2 : EventType) : bool := Nat.ltb (value e1) (value e2).

(** A queue entry [(t, (e, c, i))]: time, kind, client, server. *)
Definition Event : Type := Q * (EventType * nat * nat).

(** Python's tuple [<] on [(t, (e, c, i))]: the first components that are
    not [==] decide; [Enum] equality is identity, i.e. equality of values. *)
Definition event_cmp (x y : Event) : comparison :=
  let '(t1, (e1, c1, i1)) := x in
  let '(t2, (e2, c2, i2)) := y in
  match Qcompare t1 t2 with
  | Eq =>
      match Nat.compare (value e1) (value e2) with
      | Eq =>
          match Nat.compare c1 c2 with
          | Eq => Nat.compare i1 i2
          | r => r
          end
      | r => r
      end
  | r => r
  end.

Definition event_lt (x y : Event) : bool :=
  match event_cmp x y with Lt => true | _ => false end.

(** [events.put(x)]: the entries are kept in insertion order. *)
Definition pq_put (l : list Event) (x : Event) : list Event := l ++ [x].

(** Scan for a minimal entry, [m] being the current candidate. *)
Fixpoint pq_extract (m : Event) (l : list Event) : Event * list Event :=
  match l with
  | [] => (m, [])
  | x :: l' =>
      if event_lt x m
      then let '(r, rest) := pq_extract x l' in (r, m :: rest)
      else let '(r, rest) := pq_extract m l' in (r, x :: rest)
  end.

(** [events.get()] on a non-empty queue: a minimal entry and the others. *)
Definition pq_get (l : list Event) : option (Event * list Event) :=
  match l with
  | [] => None
  | x :: l' => Some (pq_extract x l')
  end.

(** ** The [random] module *)

(** [random.random()] and [_randbelow(k)] on the generator state [G], and
    the standard exponential variate [-log(1.0 - random())] that
    [random.expovariate] divides by its rate. *)
Record Rng (G : Type) := {
  random : G -> Q * G;
  std_exp : G -> Q * G;
  randbelow : nat -> G -> nat * G
}.
Arguments random {G} _ _.
Arguments std_exp {G} _ _.
Arguments randbelow {G} _ _ _.

Section Random.
Context {G : Type} (R : Rng G).

(** [random.expovariate(lambd)]: [-_log(1.0 - self.random()) / lambd]. *)
Definition expovariate (lambd : Q) (g : G) : res (Q * G) :=
  let '(x, g') := std_exp R g in
  if Qeq_bool lambd 0 then Raise ZeroDivisionError else Ok (x / lambd, g').

(** [random.uniform(a, b)]: [a + (b - a) * self.random()]. *)
Definition uniform (a0 b0 : Q) (g : G) : Q * G :=
  let '(u, g') := random R g in (a0 + (b0 - a0) * u, g').

(** [random.choice(seq)]. *)
Definition choice (l : list nat) (g : G) : res (nat * G) :=
  if Nat.eqb (length l) 0 then Raise IndexError
  else let '(k, g') := randbelow R (length l) g in
       x ← py_get l k; Ok (x, g').

End Random.

(** ** [servers_simulation] *)

Record State (G : Type) := mkState {
  t : Q;
  events : list Event;
  n_a : nat;
  n_d : nat;
  q : list (gmap nat (list Q));
  a : list (gmap nat (list Q));
  d : list (gmap nat (list Q));
  queue : list (list nat);
  rng : G
}.
Arguments mkState {G}.
Arguments t {G}. Arguments events {G}. Arguments n_a {G}. Arguments n_d {G}.
Arguments q {G}. Arguments a {G}. Arguments d {G}. Arguments queue {G}.
Arguments rng {G}.

(** The state with its event queue replaced by [l]. *)
Definition with_events {G} (s : State G) (l : list Event) : State G :=
  mkState (t s) l (n_a s) (n_d s) (q s) (a s) (d s) (queue s) (rng s).

(** [m[i][k] = m[i].get(k, list()) + [x]] (an append in place). *)
Definition record_time (m : list (gmap nat (list Q))) (i k : nat) (x : Q) :
  res (list (gmap nat (list Q))) :=
  mi ← py_get m i; Ok (<[i := <[k := dget mi k ++ [x]]> mi]> m).

Section Simulation.
Context {G : Type} (R : Rng G).
Variables (time : Q) (n : nat) (lambda_arrival_time : Q)
          (mu_wait_time : list Q) (p : list Q) (finish : bool).

(** Branch [e == EventType.ASIGNED]. *)
Definition on_asigned (tm : Q) (c i : nat) (s : State G) : res (State G) :=
  let index := if Nat.eqb i 0 then n_a s else c in
  q' ← record_time (q s) i index tm;
  qu ← py_get (queue s) i;
  let ev1 := if Nat.eqb (length qu) 0
             then pq_put (events s) (tm, (ARRIVAL, index, i)) else events s in
  let queue' := <[i := qu ++ [index]]> (queue s) in
  if Nat.eqb i 0 then
    '(t_next_a, g') ← expovariate R lambda_arrival_time (rng s);
    let ev2 := if Qltb (tm + t_next_a) time
               then pq_put ev1 (tm + t_next_a, (ASIGNED, 0%nat, 0%nat)) else ev1 in
    Ok (mkState tm ev2 (S (n_a s)) (n_d s) q' (a s) (d s) queue' g')
  else Ok (mkState tm ev1 (n_a s) (n_d s) q' (a s) (d s) queue' (rng s)).

(** Branch [e == EventType.ARRIVAL]. *)
Definition on_arrival (tm : Q) (c i : nat) (s : State G) : res (State G) :=
  a' ← record_time (a s) i c tm;
  mu ← py_get mu_wait_time i;
  '(duration, g') ← expovariate R mu (rng s);
  Ok (mkState tm (pq_put (events s) (tm + duration, (FINISH, c, i)))
              (n_a s) (n_d s) (q s) a' (d s) (queue s) g').

(** [i+1 if i == 0 or random.uniform(0,1) > p[i]
    else random.choice([j for j in range(i)])] *)
Definition next_server (i : nat) (g : G) : res (nat * G) :=
  if Nat.eqb i 0 then Ok (S i, g)
  else let '(u, g1) := uniform R 0 1 g in
       pi ← py_get p i;
       if Qltb pi u then Ok (S i, g1) else choice R (seq 0 i) g1.

(** Branch [e == EventType.FINISH]. *)
Definition on_finish (tm : Q) (c i : nat) (s : State G) : res (State G) :=
  qu ← py_get (queue s) i;
  let qu' := match qu with [] => [] | _ :: r => r end in
  let queue' := <[i := qu']> (queue s) in
  let ev1 := match qu' with
             | h :: _ => pq_put (events s) (tm, (ARRIVAL, h, i))
             | [] => events s
             end in
  d' ← record_time (d s) i c tm;
  if Z.eqb (Z.of_nat i) (Z.of_nat n - 1)
  then Ok (mkState tm ev1 (n_a s) (S (n_d s)) (q s) (a s) d' queue' (rng s))
  else
    '(j, g') ← next_server i (rng s);
    Ok (mkState tm (pq_put ev1 (tm, (ASIGNED, c, j)))
                (n_a s) (n_d s) (q s) (a s) d' queue' g').

Definition dispatch (ev : Event) (s : State G) : res (State G) :=
  let '(tm, (e, c, i)) := ev in
  match e with
  | ASIGNED => on_asigned tm c i s
  | ARRIVAL => on_arrival tm c i s
  | FINISH => on_finish tm c i s
  end.

(** [(finish or t < time) and not events.empty()] *)
Definition loop_guard (s : State G) : bool :=
  (finish || Qltb (t s) time) && negb (Nat.eqb (length (events s)) 0).

(** One iteration of the [while] body: [events.get()] then dispatch. *)
Definition step (s : State G) : res (State G) :=
  match pq_get (events s) with
  | None => Ok s
  | Some (ev, rest) => dispatch ev (with_events s rest)
  end.

Fixpoint sim_loop (fuel : nat) (s : State G) : res (State G) :=
  match fuel with
  | O => OutOfFuel
  | S fuel' => if loop_guard s then s' ← step s; sim_loop fuel' s' else Ok s
  end.

(** Initialisation and the first arrival. *)
Definition init_state (g : G) : res (State G) :=
  '(x, g') ← expovariate R lambda_arrival_time g;
  Ok (mkState 0 [(0 + x, (ASIGNED, 0%nat, 0%nat))] 0 0
              (repeat ∅ n) (repeat ∅ n) (repeat ∅ n) (repeat [] n) g').

Definition run_state (fuel : nat) (g : G) : res (State G) :=
  s0 ← init_state g; sim_loop fuel s0.

(** [return t, n, n_a, n_d, q, a, d] *)
Definition servers_simulation (fuel : nat) (g : G) :
  res (Q * nat * nat * nat * list (gmap nat (list Q))
       * list (gmap nat (list Q)) * list (gmap nat (list Q))) :=
  s ← run_state fuel g;
  Ok (t s, n, n_a s, n_d s, q s, a s, d s).

End Simulation.

(** ** A concrete generator: a list of pre-drawn values *)

Definition stream_head (g : list Q) : Q * list Q :=
  match g with [] => (0, []) | x :: g' => (x, g') end.

Definition list_rng : Rng (list Q) := {|
  random := stream_head;
  std_exp := stream_head;
  randbelow := fun k g => let '(x, g') := stream_head g in
                          (Z.to_nat (Qfloor (x * inject_Z (Z.of_nat k))), g')
|}.

(** ** [metrics_by_simulation] *)

Definition sumQ (l : list Q) : Q := fold_right Qplus 0 l.
Definition lenQ {A} (l : list A) : Q := inject_Z (Z.of_nat (length l)).

(** [np.mean]; [None] stands for [nan], the mean of an empty list or of a
    list holding [nan]. *)
Fixpoint all_some (l : list (option Q)) : option (list Q) :=
  match l with
  | [] => Some []
  | None :: _ => None
  | Some x :: l' => xs ← all_some l'; Some (x :: xs)
  end.

Definition np_mean (l : list (option Q)) : option Q :=
  xs ← all_some l;
  match xs with [] => None | _ => Some (sumQ xs / lenQ xs) end.

(** [np.var]: mean of the squared deviations from the mean. *)
Definition np_var (l : list (option Q)) : option Q :=
  xs ← all_some l;
  match xs with
  | [] => None
  | _ => let m := sumQ xs / lenQ xs in
         Some (sumQ (map (fun x => (x - m) * (x - m)) xs) / lenQ xs)
  end.

(** [sum(y - x for x, y in zip(xs, ys)) / len(den)] *)
Definition mean_gap (xs ys den : list Q) : Q :=
  sumQ (zip_with (fun x y => y - x) xs ys) / lenQ den.

Record Metrics := mkMetrics {
  m_time : Q;
  m_n_d : nat;
  m_wait_time : list (option Q);
  m_use_time : list (option Q);
  m_system_time : list Q
}.

(** Body of [for c in range(n_a)] at server [s]: it extends
    [wait_time_per_client], [use_time_per_client] and updates [system_time].
    [on_queue] and [processing] are never read and are left out. *)
Definition client_metrics (t_end : Q) (n n_d s : nat)
    (qs as_ ds : gmap nat (list Q)) (acc : list Q * list Q * list Q) (c : nat) :
    list Q * list Q * list Q :=
  let '(wpc, upc, st) := acc in
  let q_t := dget qs c in
  let a_t := dget as_ c in
  let d_t := dget ds c in
  match q_t with
  | [] => acc
  | q0 :: _ =>
      match a_t with
      | [] => (wpc ++ [t_end - q0], upc, st)
      | _ =>
          let w_t := mean_gap q_t a_t a_t in
          match d_t with
          | [] => (wpc ++ [w_t], upc, st)
          | _ =>
              let u_t := mean_gap a_t d_t a_t in
              let st1 := if Nat.eqb s 0 && Nat.ltb c n_d
                         then <[c := nth c st 0 - q0]> st else st in
              let st2 := if Z.eqb (Z.of_nat s) (Z.of_nat n - 1) && Nat.ltb c n_d
                         then <[c := nth c st1 0 + List.last d_t 0]> st1 else st1 in
              (wpc ++ [w_t], upc ++ [u_t], st2)
          end
      end
  end.

(** Body of [for s in range(n)]; [q], [a], [d] hold one dict per server. *)
Definition server_metrics (t_end : Q) (n n_a n_d : nat)
    (qm am dm : list (gmap nat (list Q)))
    (acc : list (option Q) * list (option Q) * list Q) (s : nat) :
    list (option Q) * list (option Q) * list Q :=
  let '(wt, ut, st) := acc in
  let qs := default ∅ (qm !! s) in
  let as_ := default ∅ (am !! s) in
  let ds := default ∅ (dm !! s) in
  let '(wpc, upc, st') :=
    fold_left (client_metrics t_end n n_d s qs as_ ds) (seq 0 n_a) ([], [], st) in
  (wt ++ [np_mean (map Some wpc)], ut ++ [np_mean (map Some upc)], st').

(** The reduction of a finished run to its [Metrics]. *)
Definition reduce_trace (t_end : Q) (n n_a n_d : nat)
    (qm am dm : list (gmap nat (list Q))) : Metrics :=
  let '(wt, ut, st) :=
    fold_left (server_metrics t_end n n_a n_d qm am dm) (seq 0 n)
              ([], [], repeat 0 n_a) in
  mkMetrics t_end n_d wt ut st.

Section MetricsBySimulation.
Context {G : Type} (R : Rng G).
Variables (time : Q) (n : nat) (lambda_arrival_time : Q)
          (mu_wait_time : list Q) (p : list Q) (finish : bool).

(** [metrics_by_simulation]; the generator state goes on to the next run. *)
Definition metrics_by_simulation (fuel : nat) (g : G) : res (Metrics * G) :=
  s ← run_state R time n lambda_arrival_time mu_wait_time p finish fuel g;
  Ok (reduce_trace (t s) n (n_a s) (n_d s) (q s) (a s) (d s), rng s).

End MetricsBySimulation.

(** ** [run_simulation] *)

Definition min_iterations : nat := 1000.
Definition max_iterations : nat := 5000.
Definition convergence_threshold : Q := 1 # 1000.

(** [np.std(xs) / len(xs) < thr].  As [np.std(xs)] is the square root of
    [np.var(xs)] and non-negative, for [len(xs) > 0] this holds exactly
    when [0 < thr * len(xs)] and [np.var(xs) < (thr * len(xs))^2]; a
    [nan] makes the comparison false. *)
Definition converged (xs : list (option Q)) (thr : Q) : bool :=
  match np_var xs with
  | None => false
  | Some v => let bound := thr * lenQ xs in Qltb 0 bound && Qltb v (bound * bound)
  end.

Section Replication.
Context {G : Type} (metrics : G -> res (Metrics * G)) (thr : Q).

(** The [while True] loop of [run_simulation]. *)
Fixpoint replicate_loop (fuel iterations : nat)
    (system_time wait_time use_time : list (option Q)) (g : G) :
    res (list (option Q) * list (option Q) * list (option Q)) :=
  match fuel with
  | O => OutOfFuel
  | S fuel' =>
      '(m, g') ← metrics g;
      let system_time' := system_time ++ [np_mean (map Some (m_system_time m))] in
      let wait_time' := wait_time ++ [np_mean (m_wait_time m)] in
      let use_time' := use_time ++ [np_mean (m_use_time m)] in
      let iterations' := S iterations in
      if Nat.leb max_iterations iterations'
      then Ok (system_time', wait_time', use_time')
      else if Nat.leb min_iterations iterations'
      then if converged system_time' thr
           then Ok (system_time', wait_time', use_time')
           else replicate_loop fuel' iterations' system_time' wait_time' use_time' g'
      else replicate_loop fuel' iterations' system_time' wait_time' use_time' g'
  end.

End Replication.

Section RunSimulation.
Context {G : Type} (R : Rng G).
Variables (time : Q) (n : nat) (lambda_arrival_time : Q)
          (mu_wait_time : list Q) (p : list Q) (finish : bool).

(** [run_simulation] with its threshold as a parameter; the loop stops by
    [max_iterations] at the latest, which bounds its fuel. *)
Definition run_simulation_with (thr : Q) (sim_fuel : nat) (g : G) :
    res ((option Q * option Q) * (option Q * option Q) * (option Q * option Q)) :=
  '(st, wt, ut) ←
    replicate_loop (metrics_by_simulation R time n lambda_arrival_time
                      mu_wait_time p finish sim_fuel)
                   thr max_iterations 0 [] [] [] g;
  Ok ((np_var wt, np_mean wt), (np_var ut, np_mean ut), (np_var st, np_mean st)).

Definition run_simulation := run_simulation_with convergence_threshold.

End RunSimulation.

(** ** Bounded prefixes of a run *)

(** At most [k] iterations of the [while] loop of [servers_simulation]. *)
Fixpoint sim_steps {G} (R : Rng G) (time : Q) (n : nat) (lambda_arrival_time : Q)
    (mu_wait_time p : list Q) (finish : bool) (k : nat) (s : State G) : res (State G) :=
  match k with
  | O => Ok s
  | S k' =>
      if loop_guard time finish s
      then s' ← step R time n lambda_arrival_time mu_wait_time p s;
           sim_steps R time n lambda_arrival_time mu_wait_time p finish k' s'
      else Ok s
  end.

(** The state after the initialisation and at most [k] iterations. *)
Definition run_prefix {G} (R : Rng G) (time : Q) (n : nat) (lambda_arrival_time : Q)
    (mu_wait_time p : list Q) (finish : bool) (k : nat) (g : G) : res (State G) :=
  s0 ← init_state R n lambda_arrival_time g;
  sim_steps R time n lambda_arrival_time mu_wait_time p finish k s0.

(** ** Observations on states *)

Definition ev_kind (x : Event) : EventType := fst (fst (snd x)).
Definition ev_client (x : Event) : nat := snd (fst (snd x)).
Definition ev_server (x : Event) : nat := snd (snd x).

Fixpoint count_ev (f : Event -> bool) (l : list Event) : nat :=
  match l with
  | [] => 0
  | x :: l' => (if f x then 1 else 0) + count_ev f l'
  end%nat.

(** An [ARRIVAL] or [FINISH] entry of server [i]: a service started or
    running there. *)
Definition in_service_at (i : nat) (x : Event) : bool :=
  match ev_kind x with ASIGNED => false | _ => Nat.eqb (ev_server x) i end.

Definition finish_of (c i : nat) (x : Event) : bool :=
  match ev_kind x with
  | FINISH => Nat.eqb (ev_client x) c && Nat.eqb (ev_server x) i
  | _ => false
  end.

(** An [ASIGNED] entry of a server other than 0: a client in transit. *)
Definition routed_inside (x : Event) : bool :=
  match ev_kind x with ASIGNED => negb (Nat.eqb (ev_server x) 0) | _ => false end.

(** [m[i].get(c, list())], empty for a server out of range. *)
Definition trace_of (m : list (gmap nat (list Q))) (i c : nat) : list Q :=
  dget (default ∅ (m !! i)) c.

Definition queue_of {G} (s : State G) (i : nat) : list nat :=
  default [] (queue s !! i).

(** Clients inside the network: queued at a server or in transit. *)
Definition in_network {G} (s : State G) : nat :=
  (sum_list (map length (queue s)) + count_ev routed_inside (events s))%nat.

Section Reachable.
Context {G : Type} (R : Rng G).
Variables (time : Q) (n : nat) (lambda_arrival_time : Q)
          (mu_wait_time p : list Q) (finish : bool).

(** The states a run goes through: the initial state and every state after
    an iteration of the [while] loop. *)
Inductive reachable : State G -> Prop :=
| reach_init g s :
    init_state R n lambda_arrival_time g = Ok s -> reachable s
| reach_step s s' :
    reachable s -> loop_guard time finish s = true ->
    step R time n lambda_arrival_time mu_wait_time p s = Ok s' -> reachable s'.

End Reachable.

Section Invariant.
Variable n : nat.

(** The invariant of the dispatch loop.  [exact] selects the form of the
    client balance: [n_d + in_network <= n_a] in general, equality when no
    client is ever routed back to server 0. *)
Record inv {G} (exact : bool) (s : State G) : Prop := {
  inv_len_q : length (q s) = n;
  inv_len_a : length (a s) = n;
  inv_len_d : length (d s) = n;
  inv_len_queue : length (queue s) = n;
  inv_server_range : forall x, In x (events s) -> ev_kind x <> ASIGNED ->
                      (ev_server x < n)%nat;
  inv_idle : forall i, queue_of s i = [] ->
               count_ev (in_service_at i) (events s) = 0%nat;
  inv_busy : forall i h tl, queue_of s i = h :: tl ->
               count_ev (in_service_at i) (events s) = 1%nat /\
               forall x, In x (events s) -> in_service_at i x = true -> ev_client x = h;
  inv_q_count : forall i c, length (trace_of (q s) i c) =
      (count_occ Nat.eq_dec (queue_of s i) c + length (trace_of (d s) i c))%nat;
  inv_a_count : forall i c, length (trace_of (a s) i c) =
      (length (trace_of (d s) i c) + count_ev (finish_of c i) (events s))%nat;
  inv_balance : if exact then (n_d s + in_network s = n_a s)%nat
                else (n_d s + in_network s <= n_a s)%nat
}.

End Invariant.

(** ** Concrete draws *)

(** A fixed-horizon run ([time = 1], one server, rates 1): arrivals at 1/2
    and 3/4, the first service lasts 10. *)
Definition horizon_draws : list Q := [1#2; 1#4; 10; 1; 1].

(** Three servers with rates 1 and [p = [0, 1/2, 0]], drained: one external
    arrival at 1/2; server 1 feeds the client back (uniform draw 1/4, choice
    of server 0), the second pass goes forward (uniform draw 3/4). *)
Definition feedback_draws : list Q := [1#2; 10; 1; 1; 1#4; 0; 10; 1; 1; 3#4; 1].

(** The draws of [feedback_draws] with the uniform draw of server 1 equal
    to 0: with [p = [0, 0, 0]] the test [u > p[1]] fails and the client goes
    back to server 0. *)
Definition zero_draws : list Q := [1#2; 10; 1; 1; 0; 0; 10; 1; 1; 3#4; 1].

(** A generator whose uniform draws are always 1/2 and whose exponential
    draws are always 1. *)
Definition const_rng : Rng unit := {|
  random := fun g => (1#2, g);
  std_exp := fun g => (1, g);
  randbelow := fun _ g => (0%nat, g)
|}.

(** ** The reducer in closed form *)

(** Client [c] reaches the last branch of the reducer at server [s]: it has
    queue-entry, service-start and departure records there. *)
Definition served_at (qm am dm : list (gmap nat (list Q))) (s c : nat) : bool :=
  negb (Nat.eqb (length (trace_of qm s c)) 0) &&
  negb (Nat.eqb (length (trace_of am s c)) 0) &&
  negb (Nat.eqb (length (trace_of dm s c)) 0).

(** Slot [c] of [system_time]: the first queue entry at server 0 is
    subtracted and the last departure at server [n - 1] added, each only for
    [c < n_d] and a client served at that server. *)
Definition system_slot (n n_d : nat) (qm am dm : list (gmap nat (list Q))) (c : nat) : Q :=
  (if Nat.ltb c n_d && Nat.ltb 0 n && served_at qm am dm 0 c
   then - hd 0 (trace_of qm 0 c) else 0) +
  (if Nat.ltb c n_d && Nat.ltb 0 n && served_at qm am dm (n - 1) c
   then List.last (trace_of dm (n - 1) c) 0 else 0).

(** The values [wait_time_per_client] receives for client [c] at server [s]. *)
Definition wait_obs (t_end : Q) (qm am : list (gmap nat (list Q))) (s c : nat) : list Q :=
  match trace_of qm s c with
  | [] => []
  | q0 :: _ =>
      match trace_of am s c with
      | [] => [t_end - q0]
      | a_t => [mean_gap (trace_of qm s c) a_t a_t]
      end
  end.

(** The values [use_time_per_client] receives for client [c] at server [s]. *)
Definition use_obs (qm am dm : list (gmap nat (list Q))) (s c : nat) : list Q :=
  if served_at qm am dm s c
  then [mean_gap (trace_of am s c) (trace_of dm s c) (trace_of am s c)] else [].

(** What client [c]'s iteration at server [s] adds to slot [c] of
    [system_time]. *)
Definition station_delta (n n_d : nat) (qm am dm : list (gmap nat (list Q)))
    (s c : nat) : Q :=
  (if Nat.eqb s 0 && Nat.ltb c n_d && served_at qm am dm s c
   then - hd 0 (trace_of qm s c) else 0) +
  (if Z.eqb (Z.of_nat s) (Z.of_nat n - 1) && Nat.ltb c n_d && served_at qm am dm s c
   then List.last (trace_of dm s c) 0 else 0).

(** ** Further invariants of the dispatch loop *)

(** A recorded time list: in order, and none of its times after [now]. *)
Definition trace_sorted (now : Q) (l : list Q) : Prop :=
  StronglySorted Qle l /\ Forall (fun y => y <= now) l.

(** The clock and the recorded times, for positive rates. *)
Record time_inv {G} (s : State G) : Prop := {
  ti_events : forall x, In x (events s) -> t s <= fst x;
  ti_q : forall i c, trace_sorted (t s) (trace_of (q s) i c);
  ti_a : forall i c, trace_sorted (t s) (trace_of (a s) i c);
  ti_d : forall i c, trace_sorted (t s) (trace_of (d s) i c)
}.

(** Client ids: every id in use is below [n_a], and at server 0 each id
    below [n_a] has exactly one queue-entry record. *)
Record ids_inv {G} (s : State G) : Prop := {
  ids_events : forall x, In x (events s) ->
    ~ (ev_kind x = ASIGNED /\ ev_server x = 0%nat) -> (ev_client x < n_a s)%nat;
  ids_queue : forall i c, In c (queue_of s i) -> (c < n_a s)%nat;
  ids_q : forall i c, trace_of (q s) i c <> [] -> (c < n_a s)%nat;
  ids_a : forall i c, trace_of (a s) i c <> [] -> (c < n_a s)%nat;
  ids_d : forall i c, trace_of (d s) i c <> [] -> (c < n_a s)%nat;
  ids_q0 : forall c, length (trace_of (q s) 0 c) = if Nat.ltb c (n_a s) then 1%nat else 0%nat
}.

(** Every pending entry names a server below [n]. *)
Definition servers_in_range {G} (n : nat) (s : State G) : Prop :=
  forall x, In x (events s) -> (ev_server x < n)%nat.

(** The [k]-th service start of a client at a server is not earlier than
    its [k]-th queue entry there, and its [k]-th departure not earlier than
    its [k]-th service start. *)
Record pair_inv {G} (s : State G) : Prop := {
  pi_qa : forall i c k, (k < length (trace_of (a s) i c))%nat ->
    nth k (trace_of (q s) i c) 0 <= nth k (trace_of (a s) i c) 0;
  pi_ad : forall i c k, (k < length (trace_of (d s) i c))%nat ->
    nth k (trace_of (a s) i c) 0 <= nth k (trace_of (d s) i c) 0
}.

(** * Proofs *)

(** ** The result monad *)

Lemma bind_Ok {A B} (m : res A) (f : A -> res B) (y : B) :
  (m ≫= f) = Ok y -> exists x, m = Ok x /\ f x = Ok y.
Proof. destruct m; simpl; try discriminate. eauto. Qed.

Ltac inv_bind H :=
  let x := fresh "x" in let Hm := fresh "Hm" in
  apply bind_Ok in H; destruct H as [x [Hm H]].

(** ** The event order *)

Ltac q_cases t1 t2 t3 :=
  destruct (Qcompare_spec t1 t2), (Qcompare_spec t2 t3), (Qcompare_spec t1 t3);
  try (exfalso; lra).

Ltac nat_cases x y z :=
  destruct (Nat.compare_spec x y), (Nat.compare_spec y z), (Nat.compare_spec x z);
  try (exfalso; lia).

Lemma event_cmp_refl (x : Event) : event_cmp x x = Eq.
Proof.
  destruct x as [t1 [[e1 c1] i1]]; simpl.
  rewrite (proj1 (Qeq_alt t1 t1) (Qeq_refl t1)), !Nat.compare_refl. reflexivity.
Qed.

Lemma event_cmp_lt_le (x y z : Event) :
  event_cmp x y = Lt -> event_cmp y z <> Gt -> event_cmp x z = Lt.
Proof.
  destruct x as [t1 [[e1 c1] i1]], y as [t2 [[e2 c2] i2]],
           z as [t3 [[e3 c3] i3]]; simpl.
  q_cases t1 t2 t3; try congruence;
  nat_cases (value e1) (value e2) (value e3); try congruence;
  nat_cases c1 c2 c3; try congruence;
  nat_cases i1 i2 i3; congruence.
Qed.

Lemma event_cmp_le_lt (x y z : Event) :
  event_cmp x y <> Gt -> event_cmp y z = Lt -> event_cmp x z = Lt.
Proof.
  destruct x as [t1 [[e1 c1] i1]], y as [t2 [[e2 c2] i2]],
           z as [t3 [[e3 c3] i3]]; simpl.
  q_cases t1 t2 t3; try congruence;
  nat_cases (value e1) (value e2) (value e3); try congruence;
  nat_cases c1 c2 c3; try congruence;
  nat_cases i1 i2 i3; congruence.
Qed.

Lemma event_cmp_antisym (x y : Event) : event_cmp y x = CompOpp (event_cmp x y).
Proof.
  destruct x as [t1 [[e1 c1] i1]], y as [t2 [[e2 c2] i2]]; simpl.
  rewrite <- (Qcompare_antisym t1 t2).
  destruct (t1 ?= t2); simpl; try reflexivity.
  rewrite (Nat.compare_antisym (value e1) (value e2)).
  destruct (value e1 ?= value e2)%nat; simpl; try reflexivity.
  rewrite (Nat.compare_antisym c1 c2).
  destruct (c1 ?= c2)%nat; simpl; try reflexivity.
  apply Nat.compare_antisym.
Qed.

Lemma pq_extract_perm (m : Event) (l : list Event) r rest :
  pq_extract m l = (r, rest) -> Permutation (m :: l) (r :: rest).
Proof.
  revert m r rest; induction l as [|x l IH]; intros m r rest H; simpl in H.
  - injection H as <- <-. reflexivity.
  - destruct (event_lt x m).
    + destruct (pq_extract x l) as [r' rest'] eqn:E. injection H as <- <-.
      apply IH in E.
      transitivity (m :: r' :: rest'); [apply perm_skip, E | apply perm_swap].
    + destruct (pq_extract m l) as [r' rest'] eqn:E. injection H as <- <-.
      apply IH in E.
      transitivity (x :: m :: l); [apply perm_swap|].
      transitivity (x :: r' :: rest'); [apply perm_skip, E | apply perm_swap].
Qed.

Lemma pq_extract_min (m : Event) (l : list Event) r rest :
  pq_extract m l = (r, rest) -> forall y, In y (m :: l) -> event_cmp y r <> Lt.
Proof.
  revert m r rest; induction l as [|x l IH]; intros m r rest H y Hy; simpl in H.
  - injection H as <- <-. destruct Hy as [<-|[]]. rewrite event_cmp_refl. discriminate.
  - unfold event_lt in H. destruct (event_cmp x m) eqn:Exm.
    + destruct (pq_extract m l) as [r' rest'] eqn:E. injection H as <- <-.
      destruct Hy as [<-|[<-|Hy]].
      * eapply IH; [exact E | left; reflexivity].
      * specialize (IH _ _ _ E m (or_introl eq_refl)).
        intro Hxr. apply IH.
        apply (event_cmp_le_lt _ x); [rewrite event_cmp_antisym, Exm; discriminate|exact Hxr].
      * eapply IH; [exact E | right; exact Hy].
    + destruct (pq_extract x l) as [r' rest'] eqn:E. injection H as <- <-.
      destruct Hy as [<-|[<-|Hy]].
      * specialize (IH _ _ _ E x (or_introl eq_refl)).
        intro Hmr. apply IH.
        apply (event_cmp_lt_le _ m); [exact Exm | rewrite Hmr; discriminate].
      * eapply IH; [exact E | left; reflexivity].
      * eapply IH; [exact E | right; exact Hy].
    + destruct (pq_extract m l) as [r' rest'] eqn:E. injection H as <- <-.
      destruct Hy as [<-|[<-|Hy]].
      * eapply IH; [exact E | left; reflexivity].
      * specialize (IH _ _ _ E m (or_introl eq_refl)).
        intro Hxr. apply IH.
        apply (event_cmp_le_lt _ x); [rewrite event_cmp_antisym, Exm; discriminate|exact Hxr].
      * eapply IH; [exact E | right; exact Hy].
Qed.

Lemma pq_get_perm (l : list Event) e rest :
  pq_get l = Some (e, rest) -> Permutation l (e :: rest).
Proof.
  destruct l as [|x l]; simpl; [discriminate|].
  intro H; injection H as H. apply pq_extract_perm. exact H.
Qed.

(** ** The dispatch loop *)

Section LoopFacts.
Context {G : Type} (R : Rng G).
Variables (time : Q) (n : nat) (lam : Q) (mu p : list Q) (finish : bool).

Lemma sim_loop_exit fuel (s s' : State G) :
  sim_loop R time n lam mu p finish fuel s = Ok s' -> loop_guard time finish s' = false.
Proof.
  revert s; induction fuel as [|fuel IH]; intros s H; simpl in H; [discriminate|].
  destruct (loop_guard time finish s) eqn:Eg.
  - inv_bind H. eapply IH; exact H.
  - injection H as <-. exact Eg.
Qed.

Lemma run_state_exit fuel g (s : State G) :
  run_state R time n lam mu p finish fuel g = Ok s -> loop_guard time finish s = false.
Proof. unfold run_state. intro H. inv_bind H. eapply sim_loop_exit; exact H. Qed.

(** C1 (amended): in fixed-horizon mode the loop itself stops once the
    clock has reached the horizon, whether or not events remain; only in
    drain mode does it run until the event queue is empty. *)
Theorem horizon_gates_dispatch_loop fuel g (s : State G) :
  run_state R time n lam mu p finish fuel g = Ok s ->
  (finish = false -> events s = [] \/ time <= t s) /\
  (finish = true -> events s = []).
Proof.
  intro H. apply run_state_exit in H. unfold loop_guard in H.
  apply andb_false_iff in H.
  split; intro Hf; subst finish; simpl in H.
  - destruct H as [H|H].
    + right. unfold Qltb in H. apply negb_false_iff, Qle_bool_iff in H. exact H.
    + left. apply negb_false_iff, Nat.eqb_eq, length_zero_iff_nil in H. exact H.
  - destruct H as [H|H]; [discriminate|].
    apply negb_false_iff, Nat.eqb_eq, length_zero_iff_nil in H. exact H.
Qed.

End LoopFacts.

Lemma horizon_gates_dispatch_loop_witness :
  exists s, run_state list_rng 1 1 1 [1] [0] false 100 horizon_draws = Ok s /\
    ((false = false -> events s = [] \/ 1 <= t s) /\ (false = true -> events s = [])).
Proof.
  eexists. split; [vm_compute; reflexivity|].
  apply (horizon_gates_dispatch_loop list_rng 1 1 1 [1] [0] false 100 horizon_draws).
  vm_compute. reflexivity.
Defined.

(** C1 (counterexample): in fixed-horizon mode client 1, admitted at 3/4
    before the horizon 1, is never served: the loop stops at time 21/2 with
    its [ARRIVAL] event still queued. *)
Lemma horizon_leaves_admitted_events :
  exists s, run_state list_rng 1 1 1 [1] [0] false 100 horizon_draws = Ok s /\
    events s = [(21 # 2, (ARRIVAL, 1%nat, 0%nat))] /\ n_a s = 2%nat /\ n_d s = 1%nat.
Proof. eexists. split; [vm_compute; reflexivity|]. vm_compute. auto. Qed.

(** ** The priority queue *)

(** C4 (amended): [events.get()] returns an entry that is minimal for the
    whole tuple order: time, then kind rank, then client id, then server
    index.  Among entries with the same time and kind the one with the
    smallest client id (then server) comes first, whatever the insertion
    order. *)
Theorem pq_get_tuple_order (l : list Event) (e : Event) (rest : list Event) :
  pq_get l = Some (e, rest) ->
  Permutation l (e :: rest) /\
  (forall y, In y l -> event_cmp y e <> Lt) /\
  (forall y, In y l -> (fst y == fst e) -> value (fst (fst (snd y))) = value (fst (fst (snd e))) ->
     (snd (fst (snd e)) < snd (fst (snd y)))%nat \/
     (snd (fst (snd e)) = snd (fst (snd y)) /\ (snd (snd e) <= snd (snd y))%nat)).
Proof.
  intro H.
  assert (Hmin : forall y, In y l -> event_cmp y e <> Lt).
  { destruct l as [|x l]; simpl in H; [discriminate|]. injection H as H.
    eapply pq_extract_min; exact H. }
  split; [apply pq_get_perm; exact H|]. split; [exact Hmin|].
  intros y Hy Ht Hv. specialize (Hmin y Hy).
  destruct y as [t1 [[e1 c1] i1]], e as [t2 [[e2 c2] i2]]; simpl in *.
  rewrite (proj1 (Qeq_alt _ _) Ht), Hv, Nat.compare_refl in Hmin.
  destruct (Nat.compare_spec c1 c2); [|exfalso; congruence|left; lia].
  subst c2. right. split; [reflexivity|].
  destruct (Nat.compare_spec i1 i2); [lia|exfalso; congruence|lia].
Qed.

Lemma pq_get_tuple_order_witness :
  let l := pq_put (pq_put [] (1, (ARRIVAL, 3%nat, 0%nat))) (1, (ARRIVAL, 1%nat, 1%nat)) in
  pq_get l = Some ((1, (ARRIVAL, 1%nat, 1%nat)), [(1, (ARRIVAL, 3%nat, 0%nat))]) /\
  Permutation l ((1, (ARRIVAL, 1%nat, 1%nat)) :: [(1, (ARRIVAL, 3%nat, 0%nat))]).
Proof.
  simpl. split; [reflexivity|].
  apply (pq_get_tuple_order
           [(1, (ARRIVAL, 3%nat, 0%nat)); (1, (ARRIVAL, 1%nat, 1%nat))]
           (1, (ARRIVAL, 1%nat, 1%nat)) [(1, (ARRIVAL, 3%nat, 0%nat))]).
  reflexivity.
Defined.

(** C4 (counterexample): two [ARRIVAL] entries at the same time, the one of
    client 3 put first: [get] returns client 1's entry first, so ties on
    [(time, kind)] are not broken by insertion order. *)
Lemma pq_same_key_not_fifo :
  pq_get (pq_put (pq_put [] (1, (ARRIVAL, 3%nat, 0%nat))) (1, (ARRIVAL, 1%nat, 1%nat)))
  = Some ((1, (ARRIVAL, 1%nat, 1%nat)), [(1, (ARRIVAL, 3%nat, 0%nat))]).
Proof. reflexivity. Qed.

(** ** Counting queue entries *)

Lemma count_ev_app f (l1 l2 : list Event) :
  count_ev f (l1 ++ l2) = (count_ev f l1 + count_ev f l2)%nat.
Proof. induction l1 as [|x l1 IH]; simpl; [reflexivity|]. rewrite IH. lia. Qed.

Lemma count_ev_perm f (l l' : list Event) : Permutation l l' -> count_ev f l = count_ev f l'.
Proof. induction 1; simpl; try destruct (f x); try destruct (f y); lia. Qed.

Lemma count_ev_In f (l : list Event) x : In x l -> f x = true -> (1 <= count_ev f l)%nat.
Proof.
  induction l as [|y l IH]; simpl; [tauto|].
  intros [<-|Hx] Hf; [rewrite Hf; lia|]. specialize (IH Hx Hf). lia.
Qed.

Lemma count_ev_mono f g (l : list Event) :
  (forall x, f x = true -> g x = true) -> (count_ev f l <= count_ev g l)%nat.
Proof.
  intro Hfg. induction l as [|x l IH]; simpl; [lia|].
  destruct (f x) eqn:E; [rewrite (Hfg x E); lia|]. destruct (g x); lia.
Qed.

Lemma count_ev_nil f : count_ev f [] = 0%nat.
Proof. reflexivity. Qed.

Lemma count_ev_one f (x : Event) : count_ev f [x] = if f x then 1%nat else 0%nat.
Proof. simpl. destruct (f x); reflexivity. Qed.

Lemma count_ev_one_In f (l : list Event) x y :
  count_ev f l = 1%nat -> In x l -> f x = true -> In y l -> f y = true -> x = y \/ False.
Proof.
  induction l as [|z l IH]; simpl; [tauto|]. intros Hc Hx Hfx Hy Hfy.
  destruct (f z) eqn:Ez.
  - assert (H0 : count_ev f l = 0%nat) by lia.
    destruct Hx as [<-|Hx]; destruct Hy as [<-|Hy]; auto.
    + pose proof (count_ev_In f l y Hy Hfy); lia.
    + pose proof (count_ev_In f l x Hx Hfx); lia.
    + pose proof (count_ev_In f l x Hx Hfx); lia.
  - destruct Hx as [<-|Hx]; [congruence|]. destruct Hy as [<-|Hy]; [congruence|].
    apply IH; auto.
Qed.

(** ** Updates of the per-server lists *)

Lemma py_get_Ok {A} (l : list A) i x : py_get l i = Ok x -> l !! i = Some x.
Proof. unfold py_get. destruct (l !! i); congruence. Qed.

Lemma record_time_Ok (m m' : list (gmap nat (list Q))) i k x :
  record_time m i k x = Ok m' ->
  (i < length m)%nat /\ length m' = length m /\
  forall j c, trace_of m' j c =
              trace_of m j c ++ (if Nat.eqb j i && Nat.eqb c k then [x] else []).
Proof.
  unfold record_time. intro H. inv_bind H. apply py_get_Ok in Hm.
  injection H as <-.
  split; [eapply lookup_lt_Some; exact Hm|]. split; [apply length_insert|].
  intros j c. unfold trace_of.
  destruct (Nat.eqb_spec j i) as [->|Hji].
  - rewrite list_lookup_insert_eq by (eapply lookup_lt_Some; exact Hm).
    rewrite Hm. simpl. unfold dget.
    destruct (Nat.eqb_spec c k) as [->|Hck].
    + rewrite lookup_insert_eq. reflexivity.
    + rewrite lookup_insert_ne by congruence. rewrite app_nil_r. reflexivity.
  - rewrite list_lookup_insert_ne by congruence. simpl. rewrite app_nil_r. reflexivity.
Qed.

Lemma list_insert_default (l : list (list nat)) i j v old :
  l !! i = Some old ->
  default [] (<[i := v]> l !! j) = if Nat.eqb j i then v else default [] (l !! j).
Proof.
  intro H. destruct (Nat.eqb_spec j i) as [->|Hji].
  - rewrite list_lookup_insert_eq by (eapply lookup_lt_Some; exact H). reflexivity.
  - rewrite list_lookup_insert_ne by congruence. reflexivity.
Qed.

Lemma sum_lengths_insert (l : list (list nat)) i v old :
  l !! i = Some old ->
  (sum_list (map length (<[i := v]> l)) + length old =
   sum_list (map length l) + length v)%nat.
Proof.
  revert i; induction l as [|x l IH]; intros [|i] H; simpl in *; try discriminate.
  - injection H as ->. lia.
  - specialize (IH i H). lia.
Qed.

Lemma lookup_repeat {A} (x : A) (k i : nat) :
  repeat x k !! i = if Nat.ltb i k then Some x else None.
Proof.
  revert i; induction k as [|k IH]; intros [|i]; simpl; try reflexivity.
  rewrite IH. reflexivity.
Qed.

Lemma sum_lengths_repeat (k : nat) : sum_list (map length (repeat (@nil nat) k)) = 0%nat.
Proof. induction k as [|k IH]; simpl; [reflexivity|]. rewrite IH. reflexivity. Qed.

Lemma count_ev_put_if f (b : bool) (l : list Event) x :
  count_ev f (if b then pq_put l x else l) =
  (count_ev f l + (if b && f x then 1 else 0))%nat.
Proof.
  destruct b; simpl; [|lia]. unfold pq_put. rewrite count_ev_app, count_ev_one. reflexivity.
Qed.

Lemma In_put_if (b : bool) (l : list Event) x y :
  In y (if b then pq_put l x else l) -> In y l \/ (b = true /\ y = x).
Proof.
  destruct b; [|tauto]. unfold pq_put. rewrite in_app_iff. simpl. intuition.
Qed.

Lemma count_ev_put f (l : list Event) x :
  count_ev f (pq_put l x) = (count_ev f l + (if f x then 1 else 0))%nat.
Proof. unfold pq_put. rewrite count_ev_app, count_ev_one. reflexivity. Qed.

Lemma In_put (l : list Event) x y : In y (pq_put l x) -> In y l \/ y = x.
Proof. unfold pq_put. rewrite in_app_iff. simpl. intuition. Qed.

Lemma count_occ_snoc (l : list nat) x c :
  count_occ Nat.eq_dec (l ++ [x]) c =
  (count_occ Nat.eq_dec l c + (if Nat.eqb x c then 1 else 0))%nat.
Proof.
  rewrite count_occ_app. simpl. destruct (Nat.eq_dec x c), (Nat.eqb_spec x c); congruence || lia.
Qed.

Lemma inv_perm {G} n exact (s : State G) (l : list Event) :
  Permutation (events s) l -> inv n exact s -> inv n exact (with_events s l).
Proof.
  intros Hp [Hq Ha Hd Hqu Hr Hi Hb Hqc Hac Hbal].
  assert (Hin : forall x, In x l -> In x (events s))
    by (intros x; apply Permutation_in; symmetry; exact Hp).
  assert (Hc : forall f, count_ev f l = count_ev f (events s))
    by (intro f; symmetry; apply count_ev_perm; exact Hp).
  constructor; simpl; auto.
  - intros i Hi0. rewrite Hc. auto.
  - intros i h tl Ht. rewrite Hc. destruct (Hb i h tl Ht) as [H1 H2]. auto.
  - intros i c. rewrite Hc. auto.
  - unfold in_network in *. simpl. rewrite Hc. exact Hbal.
Qed.

(** ** Classifying concrete entries *)

Lemma in_service_asigned j tm c i : in_service_at j (tm, (ASIGNED, c, i)) = false.
Proof. reflexivity. Qed.
Lemma in_service_arrival j tm c i : in_service_at j (tm, (ARRIVAL, c, i)) = Nat.eqb i j.
Proof. reflexivity. Qed.
Lemma in_service_finish j tm c i : in_service_at j (tm, (FINISH, c, i)) = Nat.eqb i j.
Proof. reflexivity. Qed.
Lemma finish_of_asigned c' j tm c i : finish_of c' j (tm, (ASIGNED, c, i)) = false.
Proof. reflexivity. Qed.
Lemma finish_of_arrival c' j tm c i : finish_of c' j (tm, (ARRIVAL, c, i)) = false.
Proof. reflexivity. Qed.
Lemma finish_of_finish c' j tm c i :
  finish_of c' j (tm, (FINISH, c, i)) = Nat.eqb c c' && Nat.eqb i j.
Proof. reflexivity. Qed.
Lemma routed_asigned tm c i : routed_inside (tm, (ASIGNED, c, i)) = negb (Nat.eqb i 0).
Proof. reflexivity. Qed.
Lemma routed_arrival tm c i : routed_inside (tm, (ARRIVAL, c, i)) = false.
Proof. reflexivity. Qed.
Lemma routed_finish tm c i : routed_inside (tm, (FINISH, c, i)) = false.
Proof. reflexivity. Qed.

Create Rewrite HintDb classify.
#[global] Hint Rewrite in_service_asigned in_service_arrival in_service_finish
  finish_of_asigned finish_of_arrival finish_of_finish
  routed_asigned routed_arrival routed_finish : classify.

(** ** Preservation of the invariant by each branch *)

Lemma queue_of_with_events {G} (s : State G) l i : queue_of (with_events s l) i = queue_of s i.
Proof. reflexivity. Qed.

Section Preservation.
Context {G : Type} (R : Rng G).
Variables (time : Q) (n : nat) (lam : Q) (mu p : list Q).

Lemma in_service_head (exact : bool) (s : State G) (ev : Event) :
  inv n exact (with_events s (ev :: events s)) -> ev_kind ev <> ASIGNED ->
  (ev_server ev < n)%nat /\
  exists tl, queue_of s (ev_server ev) = ev_client ev :: tl /\
             count_ev (in_service_at (ev_server ev)) (events s) = 0%nat.
Proof.
  intros [Hq Ha Hd Hqu Hr Hi Hb Hqc Hac Hbal] Hk; simpl in *.
  assert (Hs : in_service_at (ev_server ev) ev = true).
  { unfold in_service_at. destruct (ev_kind ev); [congruence| |]; apply Nat.eqb_refl. }
  split; [apply Hr; [left; reflexivity|exact Hk]|].
  destruct (queue_of s (ev_server ev)) as [|h tl] eqn:Eq.
  - specialize (Hi _ Eq). simpl in Hi. rewrite Hs in Hi. lia.
  - destruct (Hb _ _ _ Eq) as [H1 H2]. simpl in H1. rewrite Hs in H1.
    exists tl. split; [|lia].
    rewrite (H2 ev (or_introl eq_refl) Hs). reflexivity.
Qed.

Lemma on_arrival_inv exact (s s' : State G) tm c i :
  inv n exact (with_events s ((tm, (ARRIVAL, c, i)) :: events s)) ->
  on_arrival R mu tm c i s = Ok s' -> inv n exact s'.
Proof.
  intros Hinv H.
  destruct (in_service_head exact s _ Hinv) as [Hin [tl [Hqi Hc0]]]; [discriminate|].
  unfold ev_server, ev_client in Hin, Hqi, Hc0; simpl in Hin, Hqi, Hc0.
  destruct Hinv as [Hq Ha Hd Hqu Hr Hi Hb Hqc Hac Hbal]; simpl in *.
  unfold on_arrival in H. inv_bind H. apply record_time_Ok in Hm as [Hlt [Hlen Htr]].
  inv_bind H. inv_bind H. destruct x1 as [duration g']. simpl in H.
  injection H as <-.
  constructor; unfold queue_of in *; simpl in *.
  - exact Hq.
  - rewrite Hlen. exact Ha.
  - exact Hd.
  - exact Hqu.
  - intros y Hy Hk. apply In_put in Hy as [Hy|Hy].
    + apply Hr; [right; exact Hy|exact Hk].
    + subst y. exact Hin.
  - intros j Hj. rewrite count_ev_put. specialize (Hi j Hj).
    autorewrite with classify in *.
    destruct (Nat.eqb_spec i j); [subst; congruence|]. lia.
  - intros j h tl' Hj. rewrite count_ev_put.
    destruct (Hb j h tl' Hj) as [H1 H2]. autorewrite with classify in *.
    destruct (Nat.eqb_spec i j) as [<-|Hij].
    + rewrite Hqi in Hj. injection Hj as <- <-. split; [lia|].
      intros y Hy Hys. apply In_put in Hy as [Hy|Hy]; [|subst y; reflexivity].
      pose proof (count_ev_In _ _ _ Hy Hys). lia.
    + split; [lia|]. intros y Hy Hys. apply In_put in Hy as [Hy|Hy].
      * apply H2; [right; exact Hy|exact Hys].
      * subst y. autorewrite with classify in Hys. apply Nat.eqb_eq in Hys. congruence.
  - exact Hqc.
  - intros j c'. rewrite Htr, length_app, count_ev_put, Hac.
    autorewrite with classify.
    destruct (Nat.eqb_spec j i), (Nat.eqb_spec c' c), (Nat.eqb_spec c c'),
             (Nat.eqb_spec i j); subst; simpl; lia.
  - unfold in_network in *. simpl in *. rewrite count_ev_put.
    autorewrite with classify in *. rewrite Nat.add_0_r. exact Hbal.
Qed.

Lemma on_asigned_inv exact (s s' : State G) tm c i :
  inv n exact (with_events s ((tm, (ASIGNED, c, i)) :: events s)) ->
  on_asigned R time lam tm c i s = Ok s' -> inv n exact s'.
Proof.
  intros Hinv H. unfold on_asigned in H.
  inv_bind H. rename x into q'. apply record_time_Ok in Hm as [Hlt [Hlen Htr]].
  inv_bind H. rename x into qu. apply py_get_Ok in Hm. rename Hm into Hqu_i.
  set (index := if Nat.eqb i 0 then n_a s else c) in *.
  set (ev1 := if Nat.eqb (length qu) 0
              then pq_put (events s) (tm, (ARRIVAL, index, i)) else events s) in *.
  set (queue' := <[i := qu ++ [index]]> (queue s)) in *.
  assert (Hs' : exists (b : bool) tm2 g2,
    s' = mkState tm (if b then pq_put ev1 (tm2, (ASIGNED, 0%nat, 0%nat)) else ev1)
                 (if Nat.eqb i 0 then S (n_a s) else n_a s) (n_d s) q' (a s) (d s)
                 queue' g2).
  { destruct (Nat.eqb i 0).
    - inv_bind H. destruct x as [gap g']. simpl in H. injection H as <-.
      exists (Qltb (tm + gap) time), (tm + gap), g'. reflexivity.
    - injection H as <-. exists false, 0, (rng s). reflexivity. }
  clear H. destruct Hs' as [b [tm2 [g2 ->]]].
  destruct Hinv as [Hq Ha Hd Hqu Hr Hi Hb Hqc Hac Hbal]; simpl in *.
  assert (Hqo : forall j, queue_of (mkState tm (if b then pq_put ev1 (tm2, (ASIGNED, 0%nat, 0%nat)) else ev1)
                 (if Nat.eqb i 0 then S (n_a s) else n_a s) (n_d s) q' (a s) (d s)
                 queue' g2) j = if Nat.eqb j i then qu ++ [index] else queue_of s j).
  { intro j. unfold queue_of. simpl. apply (list_insert_default _ _ _ _ qu). exact Hqu_i. }
  assert (Hqs : queue_of s i = qu) by (unfold queue_of; rewrite Hqu_i; reflexivity).
  assert (Hcnt : forall f, count_ev f (if b then pq_put ev1 (tm2, (ASIGNED, 0%nat, 0%nat)) else ev1) =
     (count_ev f (events s) + (if Nat.eqb (length qu) 0 && f (tm, (ARRIVAL, index, i)) then 1 else 0)
      + (if b && f (tm2, (ASIGNED, 0%nat, 0%nat)) then 1 else 0))%nat).
  { intro f. rewrite count_ev_put_if. unfold ev1. rewrite count_ev_put_if. reflexivity. }
  assert (Hin : forall y, In y (if b then pq_put ev1 (tm2, (ASIGNED, 0%nat, 0%nat)) else ev1) ->
     In y (events s) \/ (Nat.eqb (length qu) 0 = true /\ y = (tm, (ARRIVAL, index, i))) \/
     y = (tm2, (ASIGNED, 0%nat, 0%nat))).
  { intros y Hy. apply In_put_if in Hy as [Hy|[_ Hy]]; [|auto].
    unfold ev1 in Hy. apply In_put_if in Hy as [Hy|Hy]; auto. }
  constructor; rewrite ?Hqo; simpl.
  - rewrite Hlen. exact Hq.
  - exact Ha.
  - exact Hd.
  - unfold queue'. rewrite length_insert. exact Hqu.
  - intros y Hy Hk. apply Hin in Hy as [Hy|[[_ Hy]|Hy]]; subst; simpl.
    + apply Hr; [right; exact Hy|exact Hk].
    + unfold ev_server; simpl; lia.
    + exfalso; apply Hk; reflexivity.
  - intros j. rewrite Hqo, Hcnt. autorewrite with classify. rewrite andb_false_r.
    destruct (Nat.eqb_spec j i) as [->|Hji].
    + destruct qu; discriminate.
    + intro Hj. specialize (Hi j Hj). autorewrite with classify in Hi.
      destruct (Nat.eqb_spec i j); [congruence|]. rewrite andb_false_r. lia.
  - intros j h tl. rewrite Hqo, Hcnt. autorewrite with classify. rewrite andb_false_r.
    destruct (Nat.eqb_spec j i) as [->|Hji]; intro Hj.
    + rewrite Nat.eqb_refl. destruct qu as [|h' tl'].
      * injection Hj as <- _. specialize (Hi i Hqs). autorewrite with classify in Hi.
        simpl. split; [lia|].
        intros y Hy Hys. apply Hin in Hy as [Hy|[[_ Hy]|Hy]]; subst; try reflexivity.
        -- pose proof (count_ev_In _ _ _ Hy Hys). lia.
        -- discriminate.
      * injection Hj as <- _. destruct (Hb i h' tl' Hqs) as [H1 H2].
        autorewrite with classify in H1. simpl. split; [lia|].
        intros y Hy Hys. apply Hin in Hy as [Hy|[[Hl Hy]|Hy]]; subst.
        -- apply H2; [right; exact Hy|exact Hys].
        -- discriminate.
        -- discriminate.
    + destruct (Hb j h tl Hj) as [H1 H2]. autorewrite with classify in H1.
      destruct (Nat.eqb_spec i j); [congruence|]. rewrite andb_false_r.
      split; [lia|].
      intros y Hy Hys. apply Hin in Hy as [Hy|[[_ Hy]|Hy]]; subst.
      * apply H2; [right; exact Hy|exact Hys].
      * autorewrite with classify in Hys. apply Nat.eqb_eq in Hys. congruence.
      * discriminate.
  - intros j c'. rewrite Htr, length_app, Hqo, Hqc.
    destruct (Nat.eqb_spec j i) as [->|Hji].
    + rewrite queue_of_with_events, Hqs, count_occ_snoc.
      destruct (Nat.eqb_spec c' index), (Nat.eqb_spec index c'); subst; simpl; lia.
    + rewrite queue_of_with_events. simpl. lia.
  - intros j c'. rewrite Hcnt, Hac. simpl. autorewrite with classify.
    rewrite !andb_false_r. lia.
  - unfold in_network in *. simpl in *. rewrite Hcnt. autorewrite with classify in *.
    simpl. rewrite !andb_false_r.
    pose proof (sum_lengths_insert (queue s) i (qu ++ [index]) qu Hqu_i) as Hsum.
    fold queue' in Hsum. rewrite length_app in Hsum. simpl in Hsum.
    destruct (Nat.eqb i 0), exact; simpl in *; lia.
Qed.

Lemma on_finish_inv exact (s s' : State G) tm c i :
  (exact = true -> forall g j g', next_server R p i g = Ok (j, g') -> j <> 0%nat) ->
  inv n exact (with_events s ((tm, (FINISH, c, i)) :: events s)) ->
  on_finish R n p tm c i s = Ok s' -> inv n exact s'.
Proof.
  intros Hfwd Hinv H.
  destruct (in_service_head exact s _ Hinv) as [Hin [tl [Hqi Hc0]]]; [discriminate|].
  unfold ev_server, ev_client in Hin, Hqi, Hc0; simpl in Hin, Hqi, Hc0.
  unfold on_finish in H.
  inv_bind H. rename x into qu. apply py_get_Ok in Hm. rename Hm into Hqu_i.
  assert (Equ : qu = c :: tl) by (unfold queue_of in Hqi; rewrite Hqu_i in Hqi; exact Hqi).
  subst qu. simpl in H.
  inv_bind H. rename x into d'. apply record_time_Ok in Hm as [Hlt [Hlen Htr]].
  set (ev1 := match tl with
              | h :: _ => pq_put (events s) (tm, (ARRIVAL, h, i))
              | [] => events s
              end) in *.
  set (queue' := <[i := tl]> (queue s)) in *.
  assert (Hs' : exists (b : bool) j g2,
    s' = mkState tm (if b then pq_put ev1 (tm, (ASIGNED, c, j)) else ev1)
                 (n_a s) (if b then n_d s else S (n_d s)) (q s) (a s) d' queue' g2 /\
    (b = true -> exact = true -> j <> 0%nat)).
  { destruct (Z.eqb (Z.of_nat i) (Z.of_nat n - 1)).
    - injection H as <-. exists false, 0%nat, (rng s). split; [reflexivity|discriminate].
    - inv_bind H. destruct x as [j g']. simpl in H. injection H as <-.
      exists true, j, g'. split; [reflexivity|].
      intros _ He. exact (Hfwd He _ _ _ Hm). }
  clear H. destruct Hs' as [b [j [g2 [-> Hj0]]]].
  destruct Hinv as [Hq Ha Hd Hqu Hr Hi Hb Hqc Hac Hbal]; simpl in *.
  assert (Hqo : forall j', queue_of (mkState tm (if b then pq_put ev1 (tm, (ASIGNED, c, j)) else ev1)
                 (n_a s) (if b then n_d s else S (n_d s)) (q s) (a s) d' queue' g2) j' =
                 if Nat.eqb j' i then tl else queue_of s j').
  { intro j'. unfold queue_of. simpl. apply (list_insert_default _ _ _ _ (c :: tl)). exact Hqu_i. }
  assert (Hcnt : forall f, count_ev f (if b then pq_put ev1 (tm, (ASIGNED, c, j)) else ev1) =
     (count_ev f (events s)
      + (match tl with h :: _ => if f (tm, (ARRIVAL, h, i)) then 1 else 0 | [] => 0 end)
      + (if b && f (tm, (ASIGNED, c, j)) then 1 else 0))%nat).
  { intro f. rewrite count_ev_put_if. unfold ev1.
    destruct tl as [|h tl']; [lia|]. rewrite count_ev_put. reflexivity. }
  assert (Hin' : forall y, In y (if b then pq_put ev1 (tm, (ASIGNED, c, j)) else ev1) ->
     In y (events s) \/ (exists h tl', tl = h :: tl' /\ y = (tm, (ARRIVAL, h, i))) \/
     y = (tm, (ASIGNED, c, j))).
  { intros y Hy. apply In_put_if in Hy as [Hy|[_ Hy]]; [|auto].
    unfold ev1 in Hy. destruct tl as [|h tl']; [auto|].
    apply In_put in Hy as [Hy|Hy]; [auto|subst y; right; left; eauto]. }
  constructor; rewrite ?Hqo; simpl.
  - exact Hq.
  - exact Ha.
  - rewrite Hlen. exact Hd.
  - unfold queue'. rewrite length_insert. exact Hqu.
  - intros y Hy Hk. apply Hin' in Hy as [Hy|[[h [tl' [_ Hy]]]|Hy]]; subst; simpl.
    + apply Hr; [right; exact Hy|exact Hk].
    + unfold ev_server; simpl; lia.
    + exfalso; apply Hk; reflexivity.
  - intros j'. rewrite Hqo, Hcnt. autorewrite with classify. rewrite andb_false_r.
    destruct (Nat.eqb_spec j' i) as [->|Hji]; intro Hj.
    + subst tl. simpl. lia.
    + specialize (Hi j' Hj). autorewrite with classify in Hi.
      destruct (Nat.eqb_spec i j'); [congruence|].
      destruct tl as [|h tl']; autorewrite with classify;
        [|destruct (Nat.eqb_spec i j'); [congruence|]]; simpl in *; lia.
  - intros j' h tl2. rewrite Hqo, Hcnt. autorewrite with classify. rewrite andb_false_r.
    destruct (Nat.eqb_spec j' i) as [->|Hji]; intro Hj.
    + subst tl. autorewrite with classify. rewrite Nat.eqb_refl. split; [lia|].
      intros y Hy Hys. apply Hin' in Hy as [Hy|[[h' [tl' [Ht Hy]]]|Hy]]; subst.
      * pose proof (count_ev_In _ _ _ Hy Hys). lia.
      * injection Ht as <- _. reflexivity.
      * discriminate.
    + destruct (Hb j' h tl2 Hj) as [H1 H2]. autorewrite with classify in H1.
      destruct (Nat.eqb_spec i j'); [congruence|].
      split.
      * destruct tl as [|h' tl']; autorewrite with classify;
          [|destruct (Nat.eqb_spec i j'); [congruence|]]; simpl in *; lia.
      * intros y Hy Hys. apply Hin' in Hy as [Hy|[[h' [tl' [_ Hy]]]|Hy]]; subst.
        -- apply H2; [right; exact Hy|exact Hys].
        -- autorewrite with classify in Hys. apply Nat.eqb_eq in Hys. congruence.
        -- discriminate.
  - intros j' c'. rewrite Hqo, Htr, length_app, Hqc, queue_of_with_events.
    destruct (Nat.eqb_spec j' i) as [->|Hji].
    + rewrite Hqi. simpl.
      destruct (Nat.eq_dec c c'), (Nat.eqb_spec c' c); subst; simpl; try congruence; lia.
    + simpl. lia.
  - intros j' c'. rewrite Hcnt, Htr, length_app, Hac. simpl. autorewrite with classify.
    rewrite !andb_false_r.
    destruct tl as [|h tl']; autorewrite with classify;
      destruct (Nat.eqb_spec j' i), (Nat.eqb_spec c' c), (Nat.eqb_spec c c'),
               (Nat.eqb_spec i j'); subst; simpl; try congruence; lia.
  - unfold in_network in *. simpl in *. rewrite Hcnt. autorewrite with classify in *.
    pose proof (sum_lengths_insert (queue s) i tl (c :: tl) Hqu_i) as Hsum.
    fold queue' in Hsum. simpl in Hsum.
    assert (Htl : match tl with
                  | h :: _ => if routed_inside (tm, (ARRIVAL, h, i)) then 1%nat else 0%nat
                  | [] => 0%nat end = 0%nat) by (destruct tl; reflexivity).
    rewrite Htl.
    destruct b; simpl.
    + destruct (Nat.eqb_spec j 0) as [Ej|Ej]; simpl;
        destruct exact; simpl in *; lia.
    + destruct exact; lia.
Qed.

Lemma dispatch_inv exact (s s' : State G) ev :
  (exact = true -> forall i g j g', next_server R p i g = Ok (j, g') -> j <> 0%nat) ->
  inv n exact (with_events s (ev :: events s)) ->
  dispatch R time n lam mu p ev s = Ok s' -> inv n exact s'.
Proof.
  intros Hfwd Hinv H. destruct ev as [tm [[e c] i]]. simpl in H.
  destruct e.
  - eapply on_asigned_inv; eauto.
  - eapply on_arrival_inv; eauto.
  - eapply on_finish_inv; [|exact Hinv|exact H].
    intros He; exact (Hfwd He i).
Qed.

Lemma step_inv exact (s s' : State G) :
  (exact = true -> forall i g j g', next_server R p i g = Ok (j, g') -> j <> 0%nat) ->
  inv n exact s -> step R time n lam mu p s = Ok s' -> inv n exact s'.
Proof.
  intros Hfwd Hinv H. unfold step in H.
  destruct (pq_get (events s)) as [[ev rest]|] eqn:Eg.
  - apply pq_get_perm in Eg.
    apply (inv_perm n exact s _ Eg) in Hinv.
    eapply dispatch_inv; [exact Hfwd| |exact H]. exact Hinv.
  - injection H as <-. exact Hinv.
Qed.

Lemma init_inv exact g (s : State G) :
  init_state R n lam g = Ok s -> inv n exact s.
Proof.
  unfold init_state. intro H. inv_bind H. destruct x as [x g']. simpl in H.
  injection H as <-.
  assert (Htr : forall i c, trace_of (repeat ∅ n) i c = []).
  { intros i c. unfold trace_of. rewrite lookup_repeat. destruct (Nat.ltb i n); reflexivity. }
  assert (Hqo : forall i, default [] (repeat (@nil nat) n !! i) = []).
  { intros i. rewrite lookup_repeat. destruct (Nat.ltb i n); reflexivity. }
  constructor; unfold queue_of; simpl; rewrite ?repeat_length.
  1-4: reflexivity.
  - intros y [<-|[]] Hk. exfalso; apply Hk; reflexivity.
  - intros i _. reflexivity.
  - intros i h tl. rewrite Hqo. discriminate.
  - intros i c. rewrite !Htr, Hqo. reflexivity.
  - intros i c. rewrite !Htr. reflexivity.
  - unfold in_network. simpl. rewrite sum_lengths_repeat. destruct exact; simpl; lia.
Qed.

Variable finish : bool.

Lemma reachable_inv exact (s : State G) :
  (exact = true -> forall i g j g', next_server R p i g = Ok (j, g') -> j <> 0%nat) ->
  reachable R time n lam mu p finish s -> inv n exact s.
Proof.
  intros Hfwd Hr. induction Hr as [g s Hs|s s' Hr IH Hg Hs].
  - eapply init_inv; exact Hs.
  - eapply step_inv; eauto.
Qed.

Lemma sim_loop_reachable fuel (s s' : State G) :
  reachable R time n lam mu p finish s ->
  sim_loop R time n lam mu p finish fuel s = Ok s' ->
  reachable R time n lam mu p finish s'.
Proof.
  revert s; induction fuel as [|fuel IH]; intros s Hr H; simpl in H; [discriminate|].
  destruct (loop_guard time finish s) eqn:Eg.
  - inv_bind H. eapply IH; [|exact H]. eapply reach_step; eauto.
  - injection H as <-. exact Hr.
Qed.

Lemma run_state_reachable fuel g (s : State G) :
  run_state R time n lam mu p finish fuel g = Ok s ->
  reachable R time n lam mu p finish s.
Proof.
  unfold run_state. intro H. inv_bind H.
  eapply sim_loop_reachable; [|exact H]. eapply reach_init; exact Hm.
Qed.

Lemma sim_steps_reachable k (s s' : State G) :
  reachable R time n lam mu p finish s ->
  sim_steps R time n lam mu p finish k s = Ok s' ->
  reachable R time n lam mu p finish s'.
Proof.
  revert s; induction k as [|k IH]; intros s Hr H; simpl in H.
  - injection H as <-. exact Hr.
  - destruct (loop_guard time finish s) eqn:Eg.
    + inv_bind H. eapply IH; [|exact H]. eapply reach_step; eauto.
    + injection H as <-. exact Hr.
Qed.

End Preservation.

Lemma count_ev_pos f (l : list Event) :
  (1 <= count_ev f l)%nat -> exists x, In x l /\ f x = true.
Proof.
  induction l as [|y l IH]; simpl; [lia|].
  destruct (f y) eqn:E; intro H; [exists y; auto|].
  destruct IH as [x [Hx Hf]]; [lia|]. exists x; auto.
Qed.

Lemma sum_lengths_empty (l : list (list nat)) :
  (forall i, default [] (l !! i) = []) -> sum_list (map length l) = 0%nat.
Proof.
  induction l as [|x l IH]; simpl; intro H; [reflexivity|].
  pose proof (H 0%nat) as H0. simpl in H0. subst x. simpl.
  apply IH. intro i. exact (H (S i)).
Qed.

Lemma drained_queues_empty {G} n exact (s : State G) :
  inv n exact s -> events s = [] -> sum_list (map length (queue s)) = 0%nat.
Proof.
  intros Hinv He. apply sum_lengths_empty. intro i.
  destruct (queue s !! i) as [[|h tl]|] eqn:Eq; simpl; try reflexivity.
  destruct (inv_busy _ _ _ Hinv i h tl) as [H1 _];
    [unfold queue_of; rewrite Eq; reflexivity|].
  rewrite He in H1. discriminate.
Qed.

Lemma run_prefix_reachable {G} (R : Rng G) time n lam mu p finish k g (s : State G) :
  run_prefix R time n lam mu p finish k g = Ok s ->
  reachable R time n lam mu p finish s.
Proof.
  unfold run_prefix. intro H. inv_bind H.
  eapply sim_steps_reachable; [eapply reach_init; exact Hm|exact H].
Qed.

Section InvariantClaims.
Context {G : Type} (R : Rng G).
Variables (time : Q) (n : nat) (lam : Q) (mu p : list Q) (finish : bool).

Lemma reachable_inv_le (s : State G) :
  reachable R time n lam mu p finish s -> inv n false s.
Proof. apply reachable_inv. discriminate. Qed.

(** When [p] is zero everywhere and every uniform draw is positive, routing
    never sends a client back to server 0. *)
Lemma next_server_forward i g j g' :
  Forall (fun x => x == 0) p -> (forall g0, 0 < fst (random R g0)) ->
  next_server R p i g = Ok (j, g') -> j <> 0%nat.
Proof.
  intros Hp Hu H. unfold next_server in H.
  destruct (Nat.eqb i 0); [injection H as <- _; discriminate|].
  unfold uniform in H. specialize (Hu g).
  destruct (random R g) as [u g1] eqn:Eu. simpl in Hu.
  inv_bind H. apply py_get_Ok in Hm.
  assert (Hx : x == 0) by exact (Forall_lookup_1 _ _ _ _ Hp Hm).
  assert (Hlt : Qltb x (0 + (1 - 0) * u) = true).
  { unfold Qltb. apply negb_true_iff. apply not_true_is_false. intro Hle.
    apply Qle_bool_iff in Hle. lra. }
  rewrite Hlt in H. injection H as <- _. discriminate.
Qed.

(** C10: whenever the next event popped is [FINISH] of client [c] at
    server [i], the FIFO of server [i] is non-empty with head [c], and the
    iteration that dispatches it leaves that FIFO with its tail: the pop
    removes exactly the client whose service ended. *)
Theorem finish_pops_serving_client (s : State G) tm c i rest :
  reachable R time n lam mu p finish s ->
  pq_get (events s) = Some ((tm, (FINISH, c, i)), rest) ->
  exists tl, queue s !! i = Some (c :: tl) /\
    forall s', step R time n lam mu p s = Ok s' -> queue s' !! i = Some tl.
Proof.
  intros Hr Hg.
  pose proof (reachable_inv_le s Hr) as Hinv.
  pose proof (pq_get_perm _ _ _ Hg) as Hp.
  apply (inv_perm n false s _ Hp) in Hinv.
  change (inv n false (with_events (with_events s rest)
            ((tm, (FINISH, c, i)) :: events (with_events s rest)))) in Hinv.
  destruct (in_service_head n false _ _ Hinv) as [Hin [tl [Hqi _]]]; [discriminate|].
  unfold ev_server, ev_client in Hin, Hqi; simpl in Hin, Hqi.
  rewrite queue_of_with_events in Hqi. unfold queue_of in Hqi.
  assert (Eq : queue s !! i = Some (c :: tl)).
  { destruct (queue s !! i) as [l|] eqn:E; simpl in Hqi; [congruence|discriminate]. }
  exists tl. split; [exact Eq|].
  intros s' Hs. unfold step in Hs. rewrite Hg in Hs. simpl in Hs.
  unfold on_finish in Hs. simpl in Hs. unfold py_get in Hs. rewrite Eq in Hs. simpl in Hs.
  inv_bind Hs.
  assert (Hlt : (i < length (queue s))%nat) by (eapply lookup_lt_Some; exact Eq).
  destruct (Z.eqb (Z.of_nat i) (Z.of_nat n - 1)).
  - injection Hs as <-. simpl. apply list_lookup_insert_eq. exact Hlt.
  - inv_bind Hs. destruct x0 as [j g']. simpl in Hs. injection Hs as <-. simpl.
    apply list_lookup_insert_eq. exact Hlt.
Qed.

(** C6: in every state of a run, for every server [i] and client [c], the
    departure list is no longer than the service-start list, which is no
    longer than the queue-entry list. *)
Theorem trace_lengths_ordered (s : State G) i c :
  reachable R time n lam mu p finish s ->
  (length (trace_of (d s) i c) <= length (trace_of (a s) i c) <=
   length (trace_of (q s) i c))%nat.
Proof.
  intro Hr. pose proof (reachable_inv_le s Hr) as Hinv.
  rewrite (inv_q_count _ _ _ Hinv i c), (inv_a_count _ _ _ Hinv i c).
  assert (Hfin : (count_ev (finish_of c i) (events s) <=
                  count_occ Nat.eq_dec (queue_of s i) c)%nat).
  { assert (Hm : (count_ev (finish_of c i) (events s) <=
                  count_ev (in_service_at i) (events s))%nat).
    { apply count_ev_mono. intros x. unfold finish_of, in_service_at.
      destruct (ev_kind x); try discriminate. intro H.
      apply andb_true_iff in H as [_ H]. exact H. }
    destruct (queue_of s i) as [|h tl] eqn:Eq.
    - rewrite (inv_idle _ _ _ Hinv i Eq) in Hm. lia.
    - destruct (inv_busy _ _ _ Hinv i h tl Eq) as [H1 H2].
      destruct (count_ev (finish_of c i) (events s)) as [|k] eqn:Ek; [lia|].
      destruct (count_ev_pos (finish_of c i) (events s)) as [x [Hx Hf]]; [lia|].
      assert (Hs : in_service_at i x = true).
      { unfold finish_of, in_service_at in *. destruct (ev_kind x); try discriminate.
        apply andb_true_iff in Hf as [_ Hf]. exact Hf. }
      pose proof (H2 x Hx Hs) as Hh.
      unfold finish_of in Hf. destruct (ev_kind x); try discriminate.
      apply andb_true_iff in Hf as [Hc _]. apply Nat.eqb_eq in Hc.
      subst h. simpl. destruct (Nat.eq_dec (ev_client x) c); [|congruence]. lia. }
  lia.
Qed.

(** Every completed run has [n_d <= n_a]; a drained run ([finish] true)
    has [n_d = n_a] when every [p[i]] is 0 and every uniform draw is
    positive, so that no client is routed back to server 0. *)
Theorem departures_bounded_by_arrivals fuel g (s : State G) :
  run_state R time n lam mu p finish fuel g = Ok s ->
  (n_d s <= n_a s)%nat /\
  (finish = true -> Forall (fun x => x == 0) p -> (forall g0, 0 < fst (random R g0)) ->
   n_d s = n_a s).
Proof.
  intro H. pose proof (run_state_reachable R time n lam mu p finish fuel g s H) as Hr.
  split.
  - pose proof (inv_balance _ _ _ (reachable_inv_le s Hr)) as Hb. simpl in Hb. lia.
  - intros Hf Hp Hu.
    assert (Hinv : inv n true s).
    { eapply reachable_inv; [|exact Hr].
      intros _ i g0 j g'. apply next_server_forward; assumption. }
    pose proof (run_state_exit R time n lam mu p finish fuel g s H) as Hx.
    unfold loop_guard in Hx. rewrite Hf in Hx. simpl in Hx.
    apply negb_false_iff, Nat.eqb_eq, length_zero_iff_nil in Hx.
    pose proof (inv_balance _ _ _ Hinv) as Hb. simpl in Hb.
    unfold in_network in Hb. rewrite (drained_queues_empty n true s Hinv Hx), Hx in Hb.
    simpl in Hb. lia.
Qed.

End InvariantClaims.

(** A run of the horizon scenario, drained, after three iterations: the
    next event is the end of the service of client 0 at server 0. *)
Lemma finish_pops_serving_client_witness :
  exists s, run_prefix list_rng 1 1 1 [1] [0] true 3 horizon_draws = Ok s /\
    pq_get (events s) = Some ((21 # 2, (FINISH, 0%nat, 0%nat)), []) /\
    exists tl, queue s !! 0%nat = Some (0%nat :: tl) /\
      forall s', step list_rng 1 1 1 [1] [0] s = Ok s' -> queue s' !! 0%nat = Some tl.
Proof.
  destruct (run_prefix list_rng 1 1 1 [1] [0] true 3 horizon_draws) as [s| |] eqn:E;
    [|vm_compute in E; discriminate ..].
  pose proof (run_prefix_reachable list_rng _ _ _ _ _ _ _ _ _ E) as Hr.
  assert (Hg : pq_get (events s) = Some ((21 # 2, (FINISH, 0%nat, 0%nat)), [])).
  { vm_compute in E. injection E as <-. vm_compute. reflexivity. }
  exists s. split; [reflexivity|]. split; [exact Hg|].
  exact (finish_pops_serving_client list_rng 1 1 1 [1] [0] true s _ _ _ _ Hr Hg).
Defined.

(** The same state: client 0 has one record of each kind at server 0. *)
Lemma trace_lengths_ordered_witness :
  exists s, run_prefix list_rng 1 1 1 [1] [0] true 3 horizon_draws = Ok s /\
    (length (trace_of (d s) 0 0) <= length (trace_of (a s) 0 0) <=
     length (trace_of (q s) 0 0))%nat.
Proof.
  destruct (run_prefix list_rng 1 1 1 [1] [0] true 3 horizon_draws) as [s| |] eqn:E;
    [|vm_compute in E; discriminate ..].
  pose proof (run_prefix_reachable list_rng _ _ _ _ _ _ _ _ _ E) as Hr.
  exists s. split; [reflexivity|].
  exact (trace_lengths_ordered list_rng 1 1 1 [1] [0] true s 0 0 Hr).
Defined.

(** Three servers, [p = [0, 0, 0]], drained, with [const_rng]: the run is
    completed and the balance holds with equality. *)
Lemma departures_bounded_by_arrivals_witness :
  exists s, run_state const_rng 1 3 1 [1; 1; 1] [0; 0; 0] true 100 tt = Ok s /\
    (n_d s <= n_a s)%nat /\ n_d s = n_a s.
Proof.
  destruct (run_state const_rng 1 3 1 [1; 1; 1] [0; 0; 0] true 100 tt) as [s| |] eqn:E;
    [|vm_compute in E; discriminate ..].
  destruct (departures_bounded_by_arrivals const_rng 1 3 1 [1; 1; 1] [0; 0; 0] true
              100 tt s E) as [H1 H2].
  exists s. split; [reflexivity|]. split; [exact H1|].
  apply H2; [reflexivity| |].
  - repeat constructor.
  - intros g0. simpl. lra.
Defined.

(** C5 (failing input): three servers, [p = [0, 0, 0]], drained; the
    uniform draw at server 1 is 0, so [u > p[1]] fails and client 0 is
    routed back to server 0 by an [ASIGNED] event that keeps its id 0.
    The [ASIGNED] branch at server 0 records it under the fresh id 1 and
    counts a second arrival: the run ends with no event left, every admitted
    client gone, but [n_a = 2] and [n_d = 1]. *)
Lemma drained_feedback_free_run_unbalanced :
  (exists s, run_prefix list_rng 1 3 1 [1; 1; 1] [0; 0; 0] true 6 zero_draws = Ok s /\
     events s = [(5#2, (ASIGNED, 0%nat, 0%nat))] /\ n_a s = 1%nat) /\
  exists s, run_state list_rng 1 3 1 [1; 1; 1] [0; 0; 0] true 100 zero_draws = Ok s /\
    events s = [] /\ n_a s = 2%nat /\ n_d s = 1%nat /\
    trace_of (d s) 1 0 = [5#2] /\ trace_of (q s) 0 1 = [5#2] /\
    trace_of (d s) 2 0 = [] /\ trace_of (d s) 2 1 = [11#2].
Proof.
  split; eexists; (split; [vm_compute; reflexivity|]); vm_compute; repeat split; reflexivity.
Qed.

(** ** The reducer *)

Lemma nth_insert_Q (l : list Q) k v c :
  nth c (<[k := v]> l) 0 = if Nat.eqb c k && Nat.ltb k (length l) then v else nth c l 0.
Proof.
  rewrite !nth_lookup, list_lookup_insert.
  destruct (decide (k = c /\ (k < length l)%nat)) as [[-> Hk]|Hn].
  - rewrite Nat.eqb_refl. apply Nat.ltb_lt in Hk. rewrite Hk. reflexivity.
  - destruct (Nat.eqb_spec c k) as [->|]; [|reflexivity].
    destruct (Nat.ltb_spec k (length l)); [exfalso; tauto|reflexivity].
Qed.

Lemma st_update (st : list Q) (b1 b2 : bool) (k : nat) (x y : Q) (c : nat) :
  let st1 := if b1 then <[k := nth k st 0 - x]> st else st in
  let st2 := if b2 then <[k := nth k st1 0 + y]> st1 else st1 in
  length st2 = length st /\
  nth c st2 0 == nth c st 0 +
    (if Nat.eqb c k && Nat.ltb k (length st)
     then (if b1 then - x else 0) + (if b2 then y else 0) else 0).
Proof.
  simpl. destruct b1, b2; rewrite ?length_insert; split; try reflexivity;
    rewrite ?nth_insert_Q, ?length_insert;
    destruct (Nat.eqb_spec c k) as [->|]; simpl; try lra;
    destruct (Nat.ltb k (length st)); rewrite ?Nat.eqb_refl; simpl; try lra;
    rewrite ?nth_insert_Q, ?Nat.eqb_refl; simpl; lra.
Qed.

Lemma sumQ_app (l1 l2 : list Q) : sumQ (l1 ++ l2) == sumQ l1 + sumQ l2.
Proof.
  induction l1 as [|x l1 IH]; unfold sumQ in *; simpl; [lra|]. rewrite IH. ring.
Qed.

Lemma sumQ_map_ext {A} (f g : A -> Q) (l : list A) :
  (forall x, f x == g x) -> sumQ (map f l) == sumQ (map g l).
Proof.
  intro H. induction l as [|x l IH]; unfold sumQ in *; simpl; [reflexivity|].
  rewrite IH, (H x). reflexivity.
Qed.

Lemma sumQ_map_plus {A} (f g : A -> Q) (l : list A) :
  sumQ (map (fun x => f x + g x) l) == sumQ (map f l) + sumQ (map g l).
Proof.
  induction l as [|x l IH]; unfold sumQ in *; simpl; [lra|]. rewrite IH. ring.
Qed.

Lemma sumQ_seq_single (f : nat -> Q) k m :
  sumQ (map (fun s => if Nat.eqb s k then f s else 0) (seq 0 m)) ==
  if Nat.ltb k m then f k else 0.
Proof.
  induction m as [|m IH]; [reflexivity|].
  rewrite seq_S, map_app, sumQ_app, IH. simpl. unfold sumQ; simpl.
  destruct (Nat.eqb_spec m k) as [->|Hmk].
  - destruct (Nat.ltb_spec k k); [lia|].
    destruct (Nat.ltb_spec k (S k)); [lra|lia].
  - destruct (Nat.ltb_spec k m), (Nat.ltb_spec k (S m)); try lia; lra.
Qed.

Lemma last_server_eqb (s n : nat) :
  Z.eqb (Z.of_nat s) (Z.of_nat n - 1) = Nat.eqb s (n - 1) && Nat.ltb 0 n.
Proof.
  destruct (Z.eqb_spec (Z.of_nat s) (Z.of_nat n - 1)),
           (Nat.eqb_spec s (n - 1)), (Nat.ltb_spec 0 n); simpl; try reflexivity; lia.
Qed.

Lemma client_fold t_end n n_d s (qm am dm : list (gmap nat (list Q))) k wpc upc st :
  let '(wpc', upc', st') :=
    fold_left (client_metrics t_end n n_d s (default ∅ (qm !! s))
                 (default ∅ (am !! s)) (default ∅ (dm !! s))) (seq 0 k) (wpc, upc, st) in
  wpc' = wpc ++ flat_map (wait_obs t_end qm am s) (seq 0 k) /\
  upc' = upc ++ flat_map (use_obs qm am dm s) (seq 0 k) /\
  length st' = length st /\
  forall c, nth c st' 0 == nth c st 0 +
    (if Nat.ltb c k && Nat.ltb c (length st) then station_delta n n_d qm am dm s c else 0).
Proof.
  induction k as [|k IH].
  - simpl. rewrite !app_nil_r. split; [reflexivity|]. split; [reflexivity|].
    split; [reflexivity|]. intro c. lra.
  - rewrite seq_S, fold_left_app. simpl.
    destruct (fold_left _ (seq 0 k) (wpc, upc, st)) as [[w u] st1].
    destruct IH as [-> [-> [Hl Hst]]].
    rewrite !flat_map_app. simpl. rewrite !app_nil_r, !app_assoc.
    unfold client_metrics, wait_obs, use_obs, served_at, trace_of.
    assert (Hz : forall c, (c <> k)%nat ->
      (if Nat.ltb c (S k) && Nat.ltb c (length st)
       then station_delta n n_d qm am dm s c else 0) ==
      (if Nat.ltb c k && Nat.ltb c (length st)
       then station_delta n n_d qm am dm s c else 0)).
    { intros c Hc. destruct (Nat.ltb_spec c (S k)), (Nat.ltb_spec c k); simpl;
        try reflexivity; lia. }
    assert (Hk : (Nat.ltb k k && Nat.ltb k (length st))%bool = false)
      by (rewrite Nat.ltb_irrefl; reflexivity).
    assert (HSk : Nat.ltb k (S k) = true) by (apply Nat.ltb_lt; lia).
    destruct (dget (default ∅ (qm !! s)) k) as [|q0 qr] eqn:Eq;
      [|destruct (dget (default ∅ (am !! s)) k) as [|a0 ar] eqn:Ea;
        [|destruct (dget (default ∅ (dm !! s)) k) as [|d0 dr] eqn:Ed]];
      simpl; rewrite ?app_nil_r.
    + split; [reflexivity|]. split; [reflexivity|]. split; [exact Hl|].
      intro c. rewrite Hst. destruct (Nat.eqb_spec c k) as [->|Hc].
      * rewrite Hk, HSk. simpl. unfold station_delta, served_at, trace_of. rewrite Eq.
        simpl. rewrite !andb_false_r. destruct (Nat.ltb k (length st)); lra.
      * rewrite (Hz c Hc). lra.
    + split; [reflexivity|]. split; [reflexivity|]. split; [exact Hl|].
      intro c. rewrite Hst. destruct (Nat.eqb_spec c k) as [->|Hc].
      * rewrite Hk, HSk. simpl. unfold station_delta, served_at, trace_of. rewrite Ea.
        simpl. rewrite !andb_false_r. destruct (Nat.ltb k (length st)); lra.
      * rewrite (Hz c Hc). lra.
    + split; [reflexivity|]. split; [reflexivity|]. split; [exact Hl|].
      intro c. rewrite Hst. destruct (Nat.eqb_spec c k) as [->|Hc].
      * rewrite Hk, HSk. simpl. unfold station_delta, served_at, trace_of. rewrite Ed.
        simpl. rewrite !andb_false_r. destruct (Nat.ltb k (length st)); lra.
      * rewrite (Hz c Hc). lra.
    + destruct (st_update st1 (Nat.eqb s 0 && Nat.ltb k n_d)
                  (Z.eqb (Z.of_nat s) (Z.of_nat n - 1) && Nat.ltb k n_d)
                  k q0 (List.last (d0 :: dr) 0) 0) as [Hl2 _].
      split; [reflexivity|]. split; [reflexivity|]. split; [simpl in Hl2; lia|].
      intro c.
      destruct (st_update st1 (Nat.eqb s 0 && Nat.ltb k n_d)
                  (Z.eqb (Z.of_nat s) (Z.of_nat n - 1) && Nat.ltb k n_d)
                  k q0 (List.last (d0 :: dr) 0) c) as [_ Hc2].
      simpl in Hc2. rewrite Hc2, Hst, Hl.
      destruct (Nat.eqb_spec c k) as [Eck|Hck]; [subst c|].
      * rewrite Hk, HSk. simpl. unfold station_delta, served_at, trace_of.
        rewrite Eq, Ea, Ed. simpl. rewrite !andb_true_r.
        destruct (Nat.ltb k (length st)); [|lra].
        destruct (Nat.eqb s 0 && Nat.ltb k n_d),
                 (Z.eqb (Z.of_nat s) (Z.of_nat n - 1) && Nat.ltb k n_d); lra.
      * rewrite (Hz c Hck). simpl. lra.
Qed.

Lemma server_fold t_end n n_a n_d (qm am dm : list (gmap nat (list Q))) m wt ut st :
  let '(wt', ut', st') :=
    fold_left (server_metrics t_end n n_a n_d qm am dm) (seq 0 m) (wt, ut, st) in
  wt' = wt ++ map (fun s => np_mean (map Some (flat_map (wait_obs t_end qm am s) (seq 0 n_a))))
                  (seq 0 m) /\
  ut' = ut ++ map (fun s => np_mean (map Some (flat_map (use_obs qm am dm s) (seq 0 n_a))))
                  (seq 0 m) /\
  length st' = length st /\
  forall c, nth c st' 0 == nth c st 0 +
    (if Nat.ltb c n_a && Nat.ltb c (length st)
     then sumQ (map (fun s => station_delta n n_d qm am dm s c) (seq 0 m)) else 0).
Proof.
  induction m as [|m IH].
  - simpl. rewrite !app_nil_r. split; [reflexivity|]. split; [reflexivity|].
    split; [reflexivity|]. intro c. destruct (Nat.ltb c n_a && Nat.ltb c (length st));
      unfold sumQ; simpl; lra.
  - rewrite seq_S, fold_left_app. simpl.
    destruct (fold_left _ (seq 0 m) (wt, ut, st)) as [[w u] st1].
    destruct IH as [-> [-> [Hl Hst]]].
    unfold server_metrics.
    pose proof (client_fold t_end n n_d m qm am dm n_a [] [] st1) as Hc.
    destruct (fold_left _ (seq 0 n_a) ([], [], st1)) as [[wpc upc] st2].
    destruct Hc as [-> [-> [Hl2 Hst2]]]. cbv beta iota.
    rewrite !map_app, !app_assoc. split; [reflexivity|]. split; [reflexivity|].
    split; [lia|]. intro c. rewrite Hst2, Hst, Hl.
    destruct (Nat.ltb c n_a && Nat.ltb c (length st)); [|lra].
    rewrite map_app, sumQ_app. unfold sumQ at 3. cbn [map fold_right]. lra.
Qed.

Lemma system_slot_sum n n_d (qm am dm : list (gmap nat (list Q))) c :
  sumQ (map (fun s => station_delta n n_d qm am dm s c) (seq 0 n)) ==
  system_slot n n_d qm am dm c.
Proof.
  rewrite (sumQ_map_ext _
    (fun s => (if Nat.eqb s 0
               then (if Nat.ltb c n_d && served_at qm am dm s c
                     then - hd 0 (trace_of qm s c) else 0) else 0) +
              (if Nat.eqb s (n - 1)
               then (if Nat.ltb 0 n && Nat.ltb c n_d && served_at qm am dm s c
                     then List.last (trace_of dm s c) 0 else 0) else 0))).
  - rewrite sumQ_map_plus, !sumQ_seq_single. unfold system_slot.
    destruct (Nat.ltb_spec 0 n), (Nat.ltb_spec (n - 1) n); try lia; simpl;
      rewrite ?andb_true_r; [reflexivity|].
    destruct (Nat.ltb c n_d); simpl; lra.
  - intro s. unfold station_delta. rewrite last_server_eqb.
    destruct (Nat.eqb s 0), (Nat.eqb s (n - 1)), (Nat.ltb 0 n); simpl; reflexivity.
Qed.

(** The outputs of the reducer in closed form. *)
Lemma reduce_trace_closed t_end n n_a n_d (qm am dm : list (gmap nat (list Q))) :
  let m := reduce_trace t_end n n_a n_d qm am dm in
  m_time m = t_end /\ m_n_d m = n_d /\
  m_wait_time m =
    map (fun s => np_mean (map Some (flat_map (wait_obs t_end qm am s) (seq 0 n_a))))
        (seq 0 n) /\
  m_use_time m =
    map (fun s => np_mean (map Some (flat_map (use_obs qm am dm s) (seq 0 n_a))))
        (seq 0 n) /\
  length (m_system_time m) = n_a /\
  forall c, (c < n_a)%nat -> nth c (m_system_time m) 0 == system_slot n n_d qm am dm c.
Proof.
  unfold reduce_trace.
  pose proof (server_fold t_end n n_a n_d qm am dm n [] [] (repeat 0 n_a)) as H.
  destruct (fold_left _ (seq 0 n) ([], [], repeat 0 n_a)) as [[wt ut] st].
  destruct H as [-> [-> [Hl Hst]]]. simpl.
  rewrite repeat_length in Hl. split; [reflexivity|]. split; [reflexivity|].
  split; [reflexivity|]. split; [reflexivity|]. split; [exact Hl|].
  intros c Hc. rewrite Hst, repeat_length.
  apply Nat.ltb_lt in Hc. rewrite Hc. simpl.
  rewrite nth_repeat_lt by (apply Nat.ltb_lt; exact Hc).
  rewrite system_slot_sum. lra.
Qed.

Section ReducerClaims.
Context {G : Type} (R : Rng G).
Variables (time : Q) (n : nat) (lam : Q) (mu p : list Q) (finish : bool).

Lemma metrics_by_simulation_Ok fuel g m g' :
  metrics_by_simulation R time n lam mu p finish fuel g = Ok (m, g') ->
  exists s, run_state R time n lam mu p finish fuel g = Ok s /\
    m = reduce_trace (t s) n (n_a s) (n_d s) (q s) (a s) (d s).
Proof.
  unfold metrics_by_simulation. intro H. inv_bind H. injection H as <- _.
  exists x. split; [exact Hm|reflexivity].
Qed.

(** C3 (amended): slot [c] of [system_time] is selected by position: for
    [c < n_d] it is minus the first queue entry of id [c] at server 0 plus
    its last departure from server [n - 1], each term present only if id
    [c] was served at that server; for [n_d <= c < n_a] it is 0. *)
Theorem system_time_by_position fuel g m g' :
  metrics_by_simulation R time n lam mu p finish fuel g = Ok (m, g') ->
  exists s, run_state R time n lam mu p finish fuel g = Ok s /\
    length (m_system_time m) = n_a s /\
    forall c, (c < n_a s)%nat ->
      nth c (m_system_time m) 0 == system_slot n (n_d s) (q s) (a s) (d s) c.
Proof.
  intro H. destruct (metrics_by_simulation_Ok fuel g m g' H) as [s [Hs ->]].
  destruct (reduce_trace_closed (t s) n (n_a s) (n_d s) (q s) (a s) (d s))
    as [_ [_ [_ [_ [Hl Hc]]]]].
  exists s. split; [exact Hs|]. split; [exact Hl|exact Hc].
Qed.

Lemma all_some_map_Some (xs : list Q) : all_some (map Some xs) = Some xs.
Proof. induction xs as [|x xs IH]; simpl; [reflexivity|]. rewrite IH. reflexivity. Qed.

(** C8 (amended): the per-server wait means average, over the ids with a
    queue-entry record there, the recorded wait (or [t - q[0]] when the id
    was not served); the per-server use means average over the ids with all
    three records there; a server with no such id gives [nan].
    [system_time] holds one slot per id [c < n_a], the slots of the ids
    [n_d <= c < n_a] are 0 whatever their records, and the run's mean of
    [system_time] averages all [n_a] slots, those zeros included. *)
Theorem reducer_means_closed fuel g m g' :
  metrics_by_simulation R time n lam mu p finish fuel g = Ok (m, g') ->
  exists s, run_state R time n lam mu p finish fuel g = Ok s /\
    m_wait_time m =
      map (fun i => np_mean (map Some (flat_map (wait_obs (t s) (q s) (a s) i)
                                                 (seq 0 (n_a s))))) (seq 0 n) /\
    m_use_time m =
      map (fun i => np_mean (map Some (flat_map (use_obs (q s) (a s) (d s) i)
                                                 (seq 0 (n_a s))))) (seq 0 n) /\
    length (m_system_time m) = n_a s /\
    (forall c, (n_d s <= c < n_a s)%nat -> nth c (m_system_time m) 0 == 0) /\
    np_mean (map Some (m_system_time m)) =
      if Nat.eqb (n_a s) 0 then None
      else Some (sumQ (m_system_time m) / inject_Z (Z.of_nat (n_a s))).
Proof.
  intro H. destruct (metrics_by_simulation_Ok fuel g m g' H) as [s [Hs ->]].
  destruct (reduce_trace_closed (t s) n (n_a s) (n_d s) (q s) (a s) (d s))
    as [_ [_ [Hw [Hu [Hl Hc]]]]].
  exists s. split; [exact Hs|]. split; [exact Hw|]. split; [exact Hu|].
  split; [exact Hl|]. split.
  - intros c [Hd Ha]. rewrite (Hc c Ha). unfold system_slot.
    assert (E : Nat.ltb c (n_d s) = false) by (apply Nat.ltb_ge; exact Hd).
    rewrite E. simpl. lra.
  - unfold np_mean. rewrite all_some_map_Some. cbn [mbind option_bind].
    unfold lenQ. rewrite Hl.
    destruct (m_system_time _) as [|x xs] eqn:Est; simpl in Hl |- *;
      rewrite <- Hl; reflexivity.
Qed.

End ReducerClaims.

(** ** The replication controller *)

Section ControllerClaims.
Context {G : Type} (metrics : G -> res (Metrics * G)) (thr : Q).

Lemma replicate_loop_spec fuel it sts wts uts g st wt ut :
  length sts = it -> length wts = it -> length uts = it ->
  (it + fuel = max_iterations)%nat ->
  replicate_loop metrics thr fuel it sts wts uts g = Ok (st, wt, ut) ->
  firstn it st = sts /\ (it < length st <= max_iterations)%nat /\
  length wt = length st /\ length ut = length st /\
  ((length st < max_iterations)%nat ->
     (min_iterations <= length st)%nat /\ converged st thr = true) /\
  (forall j, (it < j < length st)%nat -> (min_iterations <= j)%nat ->
     converged (firstn j st) thr = false).
Proof.
  revert it sts wts uts g.
  induction fuel as [|fuel IH]; intros it sts wts uts g Hs Hw Hu Hf H;
    cbn [replicate_loop] in H; [discriminate|].
  inv_bind H. destruct x as [m g']. cbv beta iota in H.
  set (sts' := sts ++ [np_mean (map Some (m_system_time m))]) in *.
  set (wts' := wts ++ [np_mean (m_wait_time m)]) in *.
  set (uts' := uts ++ [np_mean (m_use_time m)]) in *.
  assert (Ls : length sts' = S it) by (unfold sts'; rewrite length_app; simpl; lia).
  assert (Lw : length wts' = S it) by (unfold wts'; rewrite length_app; simpl; lia).
  assert (Lu : length uts' = S it) by (unfold uts'; rewrite length_app; simpl; lia).
  assert (Fs : firstn it sts' = sts).
  { unfold sts'. subst it. rewrite firstn_app, Nat.sub_diag, firstn_all. simpl.
    apply app_nil_r. }
  destruct (Nat.leb max_iterations (S it)) eqn:Emax;
    [apply Nat.leb_le in Emax as Hmax|apply Nat.leb_gt in Emax as Hmax].
  - injection H as -> -> ->. rewrite Ls, Lw, Lu.
    split; [exact Fs|]. split; [lia|]. split; [reflexivity|]. split; [reflexivity|].
    split; [lia|]. intros j Hj. lia.
  - assert (Hrec : replicate_loop metrics thr fuel (S it) sts' wts' uts' g' = Ok (st, wt, ut) ->
                   (Nat.leb min_iterations (S it) = true -> converged sts' thr = false) ->
      firstn it st = sts /\ (it < length st <= max_iterations)%nat /\
      length wt = length st /\ length ut = length st /\
      ((length st < max_iterations)%nat ->
         (min_iterations <= length st)%nat /\ converged st thr = true) /\
      (forall j, (it < j < length st)%nat -> (min_iterations <= j)%nat ->
         converged (firstn j st) thr = false)).
    { intros Hl Ec.
      destruct (IH (S it) sts' wts' uts' g' Ls Lw Lu ltac:(lia) Hl)
        as [F1 [L1 [W1 [U1 [C1 N1]]]]].
      split.
      { rewrite <- Fs, <- F1, firstn_firstn. f_equal. lia. }
      split; [lia|]. split; [exact W1|]. split; [exact U1|]. split; [exact C1|].
      intros j Hj Hmj. destruct (Nat.eq_dec j (S it)) as [->|Hne].
      * rewrite F1. apply Ec. apply Nat.leb_le. exact Hmj.
      * apply N1; [lia|exact Hmj]. }
    destruct (Nat.leb min_iterations (S it)) eqn:Emin.
    + destruct (converged sts' thr) eqn:Ec.
      * injection H as -> -> ->. rewrite Ls, Lw, Lu.
        apply Nat.leb_le in Emin.
        split; [exact Fs|]. split; [lia|]. split; [reflexivity|]. split; [reflexivity|].
        split; [intros _; split; [exact Emin|exact Ec]|]. intros j Hj. lia.
      * apply Hrec; [exact H|reflexivity].
    + apply Hrec; [exact H|discriminate].
Qed.

(** C7: [run_simulation]'s loop performs at least [min_iterations] and at
    most [max_iterations] replications; it stops before [max_iterations]
    only on a successful convergence test; no test on [j] replications with
    [min_iterations <= j] before the last one succeeded; and if the test on
    the first [min_iterations] replications succeeds, it stops after exactly
    [min_iterations] replications.  The three sequences have one entry per
    replication. *)
Theorem replication_stopping_rule g st wt ut :
  replicate_loop metrics thr max_iterations 0 [] [] [] g = Ok (st, wt, ut) ->
  (min_iterations <= length st <= max_iterations)%nat /\
  length wt = length st /\ length ut = length st /\
  ((length st < max_iterations)%nat -> converged st thr = true) /\
  (forall j, (min_iterations <= j < length st)%nat -> converged (firstn j st) thr = false) /\
  (converged (firstn min_iterations st) thr = true -> length st = min_iterations).
Proof.
  intro H.
  destruct (replicate_loop_spec max_iterations 0 [] [] [] g st wt ut
              eq_refl eq_refl eq_refl eq_refl H) as [_ [L [W [U [C N]]]]].
  assert (Hmm : (min_iterations < max_iterations)%nat) by (vm_compute; lia).
  assert (Lmin : (min_iterations <= length st)%nat).
  { destruct (Nat.lt_ge_cases (length st) max_iterations) as [Hl|Hl].
    - apply (C Hl).
    - lia. }
  split; [lia|]. split; [exact W|]. split; [exact U|].
  split; [intro Hl; apply (C Hl)|].
  split.
  - intros j Hj. apply N; [|lia]. split; [|lia].
    assert (0 < min_iterations)%nat by (vm_compute; lia). lia.
  - intro Hc. destruct (Nat.eq_dec (length st) min_iterations) as [E|E]; [exact E|].
    exfalso. assert (0 < min_iterations)%nat by (vm_compute; lia).
    rewrite (N min_iterations) in Hc; [discriminate|lia|lia].
Qed.

End ControllerClaims.

(** ** Configuration checks *)

Section ConfigClaims.
Context {G : Type} (R : Rng G).

(** C9 (amended): [servers_simulation] validates nothing and has no
    [ConfigurationError].  The initialisation raises [ZeroDivisionError]
    exactly when the arrival rate is 0; for any other configuration it
    schedules the first [ASIGNED] event, whatever [n], the rates, the
    probabilities and the sequence lengths; with [n = 0] the first dispatch
    raises [IndexError]. *)
Theorem configuration_not_validated time n lam mu p finish fuel g :
  (init_state R n lam g = Raise ZeroDivisionError <-> lam == 0) /\
  (~ lam == 0 -> exists s, init_state R n lam g = Ok s /\
     events s = [(0 + fst (std_exp R g) / lam, (ASIGNED, 0%nat, 0%nat))] /\
     t s = 0 /\ n_a s = 0%nat) /\
  (~ lam == 0 -> (finish = true \/ 0 < time) ->
     run_state R time 0 lam mu p finish (S fuel) g = Raise IndexError).
Proof.
  unfold init_state, expovariate.
  destruct (std_exp R g) as [x g'] eqn:Ex. simpl.
  destruct (Qeq_bool lam 0) eqn:Eq0.
  - apply Qeq_bool_iff in Eq0. split; [split; reflexivity + (intros; exact Eq0)|].
    split; intro Hn; exfalso; exact (Hn Eq0).
  - assert (Hn : ~ lam == 0).
    { intro Hl. apply Qeq_bool_iff in Hl. congruence. }
    split; [split; [discriminate|intro Hl; exfalso; exact (Hn Hl)]|].
    split.
    + intros _. eexists. split; [reflexivity|]. simpl. auto.
    + intros _ Hg. unfold run_state, init_state, expovariate. rewrite Ex, Eq0. simpl.
      assert (Hgd : loop_guard time finish
                      (mkState 0 [(0 + x / lam, (ASIGNED, 0%nat, 0%nat))] 0 0
                               [] [] [] [] g') = true).
      { unfold loop_guard. simpl. rewrite andb_true_r.
        destruct Hg as [->|Ht]; [reflexivity|].
        apply orb_true_iff. right. unfold Qltb. apply negb_true_iff.
        apply not_true_is_false. intro Hle. apply Qle_bool_iff in Hle. lra. }
      rewrite Hgd. reflexivity.
Qed.

End ConfigClaims.

(** ** Concrete runs *)

(** The feedback run: the reducer returns [system_time = [-1/2, 0]]. *)
Lemma system_time_by_position_witness :
  exists m g', metrics_by_simulation list_rng 1 3 1 [1; 1; 1] [0; 1#2; 0] true 100
                 feedback_draws = Ok (m, g') /\
    exists s, run_state list_rng 1 3 1 [1; 1; 1] [0; 1#2; 0] true 100 feedback_draws = Ok s /\
      length (m_system_time m) = n_a s /\
      forall c, (c < n_a s)%nat ->
        nth c (m_system_time m) 0 == system_slot 3 (n_d s) (q s) (a s) (d s) c.
Proof.
  destruct (metrics_by_simulation list_rng 1 3 1 [1; 1; 1] [0; 1#2; 0] true 100
              feedback_draws) as [[m g']| |] eqn:E; [|vm_compute in E; discriminate ..].
  exists m, g'. split; [reflexivity|].
  exact (system_time_by_position list_rng 1 3 1 [1; 1; 1] [0; 1#2; 0] true 100
           feedback_draws m g' E).
Defined.

(** C3 (counterexample): in the feedback run the client that entered at
    1/2 re-enters server 0 under id 1 at 5/2 and leaves server 2 at 11/2
    under id 1.  Id 0 never left server 2 yet its slot is -1/2; id 1 entered
    server 0 and left server 2 yet its slot is 0, as [1 < n_d = 1] fails. *)
Lemma system_time_misattributed :
  exists s m g',
    run_state list_rng 1 3 1 [1; 1; 1] [0; 1#2; 0] true 100 feedback_draws = Ok s /\
    metrics_by_simulation list_rng 1 3 1 [1; 1; 1] [0; 1#2; 0] true 100
      feedback_draws = Ok (m, g') /\
    n_d s = 1%nat /\ n_a s = 2%nat /\
    trace_of (q s) 0 0 = [1#2] /\ trace_of (d s) 2 0 = [] /\
    trace_of (q s) 0 1 = [5#2] /\ trace_of (d s) 2 1 = [11#2] /\
    m_system_time m = [-(1#2); 0].
Proof.
  do 3 eexists. split; [vm_compute; reflexivity|]. split; [vm_compute; reflexivity|].
  vm_compute. repeat split; reflexivity.
Qed.

(** The horizon run: the reducer's per-server lists and [system_time]. *)
Lemma reducer_means_closed_witness :
  exists m g', metrics_by_simulation list_rng 1 1 1 [1] [0] false 100
                 horizon_draws = Ok (m, g') /\
    exists s, run_state list_rng 1 1 1 [1] [0] false 100 horizon_draws = Ok s /\
      m_wait_time m =
        map (fun i => np_mean (map Some (flat_map (wait_obs (t s) (q s) (a s) i)
                                                   (seq 0 (n_a s))))) (seq 0 1) /\
      m_use_time m =
        map (fun i => np_mean (map Some (flat_map (use_obs (q s) (a s) (d s) i)
                                                   (seq 0 (n_a s))))) (seq 0 1) /\
      length (m_system_time m) = n_a s /\
      (forall c, (n_d s <= c < n_a s)%nat -> nth c (m_system_time m) 0 == 0) /\
      np_mean (map Some (m_system_time m)) =
        if Nat.eqb (n_a s) 0 then None
        else Some (sumQ (m_system_time m) / inject_Z (Z.of_nat (n_a s))).
Proof.
  destruct (metrics_by_simulation list_rng 1 1 1 [1] [0] false 100 horizon_draws)
    as [[m g']| |] eqn:E; [|vm_compute in E; discriminate ..].
  exists m, g'. split; [reflexivity|].
  exact (reducer_means_closed list_rng 1 1 1 [1] [0] false 100 horizon_draws m g' E).
Defined.

(** C8 (counterexample): in the horizon run only client 0 leaves, after a
    system time of 10; client 1 has no departure record, yet its slot 0 is
    averaged in: the mean of [system_time] is 5. *)
Lemma system_mean_counts_absent_clients :
  exists s m g',
    run_state list_rng 1 1 1 [1] [0] false 100 horizon_draws = Ok s /\
    metrics_by_simulation list_rng 1 1 1 [1] [0] false 100 horizon_draws = Ok (m, g') /\
    n_d s = 1%nat /\ n_a s = 2%nat /\ trace_of (d s) 0 1 = [] /\
    m_system_time m = [40 # 4; 0] /\ np_mean (map Some (m_system_time m)) = Some (40 # 8).
Proof.
  do 3 eexists. split; [vm_compute; reflexivity|]. split; [vm_compute; reflexivity|].
  vm_compute. repeat split; reflexivity.
Qed.

(** A controller whose replications all report empty lists: every mean is
    [nan], the test never succeeds and the loop stops at [max_iterations]. *)
Lemma replication_stopping_rule_witness :
  replicate_loop (fun g : unit => Ok (mkMetrics 0 0 [] [] [], g)) 1
                 max_iterations 0 [] [] [] tt =
    Ok (repeat None 5000, repeat None 5000, repeat None 5000) /\
  (min_iterations <= length (repeat (@None Q) 5000) <= max_iterations)%nat /\
  length (repeat (@None Q) 5000) = length (repeat (@None Q) 5000) /\
  length (repeat (@None Q) 5000) = length (repeat (@None Q) 5000) /\
  ((length (repeat (@None Q) 5000) < max_iterations)%nat ->
     converged (repeat None 5000) 1 = true) /\
  (forall j, (min_iterations <= j < length (repeat (@None Q) 5000))%nat ->
     converged (firstn j (repeat None 5000)) 1 = false) /\
  (converged (firstn min_iterations (repeat None 5000)) 1 = true ->
     length (repeat (@None Q) 5000) = min_iterations).
Proof.
  assert (E : replicate_loop (fun g : unit => Ok (mkMetrics 0 0 [] [] [], g)) 1
                max_iterations 0 [] [] [] tt =
              Ok (repeat None 5000, repeat None 5000, repeat None 5000))
    by (vm_compute; reflexivity).
  split; [exact E|].
  exact (replication_stopping_rule _ 1 tt _ _ _ E).
Defined.

(** One server, arrival rate 1: the first [ASIGNED] event is scheduled, and
    with no server at all the first dispatch raises [IndexError]. *)
Lemma configuration_not_validated_witness :
  (init_state list_rng 1 1 [1#2] = Raise ZeroDivisionError <-> 1 == 0) /\
  (~ 1 == 0 -> exists s, init_state list_rng 1 1 [1#2] = Ok s /\
     events s = [(0 + fst (std_exp list_rng [1#2]) / 1, (ASIGNED, 0%nat, 0%nat))] /\
     t s = 0 /\ n_a s = 0%nat) /\
  (~ 1 == 0 -> (true = true \/ 0 < 1) ->
     run_state list_rng 1 0 1 [] [] true 100 [1#2] = Raise IndexError).
Proof.
  exact (configuration_not_validated list_rng 1 1 1 [] [] true 99 [1#2]).
Defined.

(** C9 (counterexample): one server with service rate -1, [p = [2]] and a
    rate list longer than [n]: the call is accepted and the run completes;
    the service lasts -1 and the clock ends at -1/2. *)
Lemma invalid_configuration_runs :
  exists s, run_state list_rng 1 1 1 [-1; 5] [2] true 100 [1#2; 10; 1] = Ok s /\
    n_a s = 1%nat /\ n_d s = 1%nat /\ t s == -(1#2).
Proof.
  eexists. split; [vm_compute; reflexivity|]. vm_compute. repeat split; reflexivity.
Qed.

(** C2 (failing input): in the feedback run, after six iterations the
    client that finished server 1 has been sent back to server 0 by an
    [ASIGNED] event carrying its id 0; the next iteration records it at
    server 0 under the fresh id 1 and counts a second arrival. *)
Lemma feedback_client_renumbered :
  exists s s',
    run_prefix list_rng 1 3 1 [1; 1; 1] [0; 1#2; 0] true 6 feedback_draws = Ok s /\
    events s = [(5#2, (ASIGNED, 0%nat, 0%nat))] /\ n_a s = 1%nat /\
    trace_of (d s) 1 0 = [5#2] /\
    step list_rng 1 3 1 [1; 1; 1] [0; 1#2; 0] s = Ok s' /\
    n_a s' = 2%nat /\ queue s' = [[1%nat]; []; []] /\
    trace_of (q s') 0 0 = [1#2] /\ trace_of (q s') 0 1 = [5#2].
Proof.
  do 2 eexists. split; [vm_compute; reflexivity|].
  split; [vm_compute; reflexivity|]. split; [vm_compute; reflexivity|].
  split; [vm_compute; reflexivity|]. split; [vm_compute; reflexivity|].
  vm_compute. repeat split; reflexivity.
Qed.

(** * Further properties of [servers_simulation] *)

(** ** What each branch does to the state *)

Section Shapes.
Context {G : Type} (R : Rng G).
Variables (time : Q) (n : nat) (lam : Q) (mu p : list Q).

Lemma on_asigned_shape (s s' : State G) tm c i :
  on_asigned R time lam tm c i s = Ok s' ->
  exists qu, queue s !! i = Some qu /\
    record_time (q s) i (if Nat.eqb i 0 then n_a s else c) tm = Ok (q s') /\
    t s' = tm /\ a s' = a s /\ d s' = d s /\ n_d s' = n_d s /\
    n_a s' = (if Nat.eqb i 0 then S (n_a s) else n_a s) /\
    queue s' = <[i := qu ++ [if Nat.eqb i 0 then n_a s else c]]> (queue s) /\
    forall y, In y (events s') ->
      In y (events s) \/ y = (tm, (ARRIVAL, if Nat.eqb i 0 then n_a s else c, i)) \/
      (i = 0%nat /\ exists gap g', expovariate R lam (rng s) = Ok (gap, g') /\
         Qltb (tm + gap) time = true /\ y = (tm + gap, (ASIGNED, 0%nat, 0%nat))).
Proof.
  intro H. unfold on_asigned in H.
  inv_bind H. rename x into q', Hm into Hq'.
  inv_bind H. rename x into qu, Hm into Hqu. apply py_get_Ok in Hqu.
  exists qu. split; [exact Hqu|].
  destruct (Nat.eqb i 0) eqn:Ei.
  - apply Nat.eqb_eq in Ei. subst i.
    inv_bind H. destruct x as [gap g']. cbv beta iota in H. injection H as <-. simpl.
    do 7 (split; [reflexivity || exact Hq'|]).
    intros y Hy. apply In_put_if in Hy as [Hy|[Hb ->]].
    + apply In_put_if in Hy as [Hy|[_ ->]]; auto.
    + right; right. split; [reflexivity|]. exists gap, g'. auto.
  - injection H as <-. simpl.
    do 7 (split; [reflexivity || exact Hq'|]).
    intros y Hy. apply In_put_if in Hy as [Hy|[_ ->]]; auto.
Qed.

Lemma on_arrival_shape (s s' : State G) tm c i :
  on_arrival R mu tm c i s = Ok s' ->
  exists m dur, mu !! i = Some m /\ expovariate R m (rng s) = Ok (dur, rng s') /\
    record_time (a s) i c tm = Ok (a s') /\
    t s' = tm /\ q s' = q s /\ d s' = d s /\ n_a s' = n_a s /\ n_d s' = n_d s /\
    queue s' = queue s /\ events s' = pq_put (events s) (tm + dur, (FINISH, c, i)).
Proof.
  intro H. unfold on_arrival in H.
  inv_bind H. rename x into a', Hm into Ha'.
  inv_bind H. rename x into m, Hm into Hmu. apply py_get_Ok in Hmu.
  inv_bind H. destruct x as [dur g']. cbv beta iota in H. injection H as <-.
  exists m, dur. simpl. repeat split; assumption.
Qed.

Lemma on_finish_shape (s s' : State G) tm c i :
  on_finish R n p tm c i s = Ok s' ->
  exists qu, queue s !! i = Some qu /\
    record_time (d s) i c tm = Ok (d s') /\
    t s' = tm /\ q s' = q s /\ a s' = a s /\ n_a s' = n_a s /\
    n_d s' = (if Z.eqb (Z.of_nat i) (Z.of_nat n - 1) then S (n_d s) else n_d s) /\
    queue s' = <[i := tl qu]> (queue s) /\
    forall y, In y (events s') ->
      In y (events s) \/ (exists h r, tl qu = h :: r /\ y = (tm, (ARRIVAL, h, i))) \/
      (Z.eqb (Z.of_nat i) (Z.of_nat n - 1) = false /\
       exists j g', next_server R p i (rng s) = Ok (j, g') /\ y = (tm, (ASIGNED, c, j))).
Proof.
  intro H. unfold on_finish in H.
  inv_bind H. rename x into qu, Hm into Hqu. apply py_get_Ok in Hqu.
  inv_bind H. rename x into d', Hm into Hd'.
  exists qu. split; [exact Hqu|].
  assert (Hev1 : forall y, In y (match tl qu with
                                 | h :: _ => pq_put (events s) (tm, (ARRIVAL, h, i))
                                 | [] => events s end) ->
            In y (events s) \/ (exists h r, tl qu = h :: r /\ y = (tm, (ARRIVAL, h, i)))).
  { intros y Hy. destruct (tl qu) as [|h r]; [auto|].
    apply In_put in Hy as [Hy| ->]; [auto|right; eauto]. }
  change (match qu with [] => [] | _ :: r => r end) with (tl qu) in H.
  destruct (Z.eqb (Z.of_nat i) (Z.of_nat n - 1)) eqn:Ei.
  - injection H as <-. simpl.
    do 7 (split; [reflexivity || exact Hd'|]).
    intros y Hy. destruct (Hev1 y Hy); auto.
  - inv_bind H. destruct x as [j g']. cbv beta iota in H. injection H as <-. simpl.
    do 7 (split; [reflexivity || exact Hd'|]).
    intros y Hy. apply In_put in Hy as [Hy| ->].
    + destruct (Hev1 y Hy); auto.
    + right; right. split; [reflexivity|]. exists j, g'. auto.
Qed.

End Shapes.

(** ** The clock *)

Lemma pq_get_min_time (l : list Event) e rest :
  pq_get l = Some (e, rest) -> forall y, In y l -> fst e <= fst y.
Proof.
  destruct l as [|x l]; simpl; [discriminate|]. intros H y Hy. injection H as H.
  pose proof (pq_extract_min x l e rest H y Hy) as Hm. revert Hm.
  destruct y as [t1 [[e1 c1] i1]], e as [t2 [[e2 c2] i2]]; simpl.
  destruct (Qcompare_spec t1 t2); intro Hm; [lra|congruence|lra].
Qed.

Lemma trace_sorted_nil now : trace_sorted now [].
Proof. split; constructor. Qed.

Lemma trace_sorted_mono now now' l :
  trace_sorted now l -> now <= now' -> trace_sorted now' l.
Proof.
  intros [Hs Hf] Hle. split; [exact Hs|].
  eapply Forall_impl; [exact Hf|]. intros y Hy. simpl in Hy. lra.
Qed.

Lemma trace_sorted_snoc now l x :
  trace_sorted now l -> now <= x -> trace_sorted x (l ++ [x]).
Proof.
  induction l as [|y l IH]; intros [Hs Hf] Hx; simpl.
  - split; repeat constructor. apply Qle_refl.
  - apply StronglySorted_inv in Hs as [Hs Hy]. apply Forall_cons_iff in Hf as [Hyn Hf].
    destruct (IH (conj Hs Hf) Hx) as [Hs' Hf']. split.
    + constructor; [exact Hs'|]. apply Forall_app. split; [exact Hy|].
      constructor; [lra|constructor].
    + constructor; [lra|exact Hf'].
Qed.

Lemma trace_sorted_update now (m m' : list (gmap nat (list Q))) i k x :
  (forall j c, trace_of m' j c =
               trace_of m j c ++ (if Nat.eqb j i && Nat.eqb c k then [x] else [])) ->
  (forall j c, trace_sorted now (trace_of m j c)) -> now <= x ->
  forall j c, trace_sorted x (trace_of m' j c).
Proof.
  intros Htr Hs Hx j c. rewrite Htr. destruct (Nat.eqb j i && Nat.eqb c k).
  - apply (trace_sorted_snoc now); auto.
  - rewrite app_nil_r. apply (trace_sorted_mono now); auto.
Qed.

Section Clock.
Context {G : Type} (R : Rng G).
Variables (time : Q) (n : nat) (lam : Q) (mu p : list Q) (finish : bool).
Hypothesis Hexp : forall g, 0 <= fst (std_exp R g).
Hypothesis Hlam : 0 < lam.
Hypothesis Hmu : Forall (fun m => 0 < m) mu.

Lemma expovariate_nonneg r g x g' :
  0 < r -> expovariate R r g = Ok (x, g') -> 0 <= x.
Proof.
  intros Hr H. unfold expovariate in H. pose proof (Hexp g) as He.
  destruct (std_exp R g) as [u g1]. simpl in He.
  destruct (Qeq_bool r 0); [discriminate|]. injection H as <- _.
  apply Qle_shift_div_l; [exact Hr|]. rewrite Qmult_0_l. exact He.
Qed.

Lemma step_time_inv (s s' : State G) :
  time_inv s -> step R time n lam mu p s = Ok s' -> time_inv s' /\ t s <= t s'.
Proof.
  intros [He Hq Ha Hd] H. unfold step in H.
  destruct (pq_get (events s)) as [[ev rest]|] eqn:Eg;
    [|injection H as <-; split; [constructor; assumption|apply Qle_refl]].
  pose proof (pq_get_perm _ _ _ Eg) as Hp.
  assert (Hev : t s <= fst ev).
  { apply He. apply (Permutation_in _ (Permutation_sym Hp)). left; reflexivity. }
  assert (Hrest : forall y, In y rest -> fst ev <= fst y).
  { intros y Hy. apply (pq_get_min_time _ _ _ Eg).
    apply (Permutation_in _ (Permutation_sym Hp)). right; exact Hy. }
  destruct ev as [tm [[e c] i]]. simpl in Hev, Hrest, H.
  destruct e.
  - apply on_asigned_shape in H
      as [qu [_ [Hrq [Ht [Ha' [Hd' [_ [_ [_ Hin]]]]]]]]]. simpl in *.
    apply record_time_Ok in Hrq as [_ [_ Htr]].
    rewrite Ht. split; [|exact Hev]. constructor; rewrite ?Ht, ?Ha', ?Hd'.
    + intros y Hy. apply Hin in Hy as [Hy|[ ->|[_ [gap [g' [Hx [_ ->]]]]]]]; simpl.
      * apply Hrest; exact Hy.
      * apply Qle_refl.
      * pose proof (expovariate_nonneg _ _ _ _ Hlam Hx). lra.
    + exact (trace_sorted_update _ _ _ _ _ _ Htr Hq Hev).
    + intros j c'. apply (trace_sorted_mono (t s)); auto.
    + intros j c'. apply (trace_sorted_mono (t s)); auto.
  - apply on_arrival_shape in H
      as [m [dur [Hm [Hx [Hra [Ht [Hq' [Hd' [_ [_ [_ Hevs]]]]]]]]]]]. simpl in *.
    apply record_time_Ok in Hra as [_ [_ Htr]].
    assert (Hm0 : 0 < m) by exact (Forall_lookup_1 _ _ _ _ Hmu Hm).
    pose proof (expovariate_nonneg _ _ _ _ Hm0 Hx) as Hdur.
    rewrite Ht. split; [|exact Hev]. constructor; rewrite ?Ht, ?Hq', ?Hd', ?Hevs.
    + intros y Hy. apply In_put in Hy as [Hy| ->]; simpl.
      * apply Hrest; exact Hy.
      * lra.
    + intros j c'. apply (trace_sorted_mono (t s)); auto.
    + exact (trace_sorted_update _ _ _ _ _ _ Htr Ha Hev).
    + intros j c'. apply (trace_sorted_mono (t s)); auto.
  - apply on_finish_shape in H
      as [qu [_ [Hrd [Ht [Hq' [Ha' [_ [_ [_ Hin]]]]]]]]]. simpl in *.
    apply record_time_Ok in Hrd as [_ [_ Htr]].
    rewrite Ht. split; [|exact Hev]. constructor; rewrite ?Ht, ?Hq', ?Ha'.
    + intros y Hy.
      apply Hin in Hy as [Hy|[[h [r [_ ->]]]|[_ [j [g' [_ ->]]]]]]; simpl.
      * apply Hrest; exact Hy.
      * apply Qle_refl.
      * apply Qle_refl.
    + intros j c'. apply (trace_sorted_mono (t s)); auto.
    + intros j c'. apply (trace_sorted_mono (t s)); auto.
    + exact (trace_sorted_update _ _ _ _ _ _ Htr Hd Hev).
Qed.

Lemma init_time_inv g (s : State G) :
  init_state R n lam g = Ok s -> time_inv s.
Proof.
  unfold init_state. intro H. inv_bind H. destruct x as [x g']. cbv beta iota in H.
  injection H as <-. pose proof (expovariate_nonneg _ _ _ _ Hlam Hm) as Hx.
  assert (Htr : forall i c, trace_of (repeat ∅ n) i c = []).
  { intros i c. unfold trace_of. rewrite lookup_repeat. destruct (Nat.ltb i n); reflexivity. }
  constructor; simpl; intros; rewrite ?Htr; try apply trace_sorted_nil.
  destruct H as [<-|[]]. simpl. lra.
Qed.

Lemma reachable_time_inv (s : State G) :
  reachable R time n lam mu p finish s -> time_inv s.
Proof.
  intro Hr. induction Hr as [g s Hs|s s' Hr IH Hg Hs].
  - eapply init_time_inv; exact Hs.
  - exact (proj1 (step_time_inv s s' IH Hs)).
Qed.

End Clock.

(** ** Client ids *)

Lemma In_tl (l : list nat) x : In x (tl l) -> In x l.
Proof. destruct l as [|h r]; simpl; [contradiction|auto]. Qed.

Section Ids.
Context {G : Type} (R : Rng G).
Variables (time : Q) (n : nat) (lam : Q) (mu p : list Q) (finish : bool).

Lemma step_ids_inv (s s' : State G) :
  ids_inv s -> step R time n lam mu p s = Ok s' -> ids_inv s'.
Proof.
  intros [He Hqu Hq Ha Hd Hq0] H. unfold step in H.
  destruct (pq_get (events s)) as [[ev rest]|] eqn:Eg;
    [|injection H as <-; constructor; assumption].
  pose proof (pq_get_perm _ _ _ Eg) as Hp.
  assert (Hev : In ev (events s)).
  { apply (Permutation_in _ (Permutation_sym Hp)). left; reflexivity. }
  assert (Hrest : forall y, In y rest -> In y (events s)).
  { intros y Hy. apply (Permutation_in _ (Permutation_sym Hp)). right; exact Hy. }
  destruct ev as [tm [[e c] i]]. simpl in H.
  destruct e.
  - apply on_asigned_shape in H
      as [qu [Hqi [Hrq [_ [Ha' [Hd' [_ [Hna [Hqs Hin]]]]]]]]]. simpl in *.
    apply record_time_Ok in Hrq as [_ [_ Htr]].
    set (index := if Nat.eqb i 0 then n_a s else c) in *.
    assert (Hidx : (index < n_a s')%nat).
    { rewrite Hna. unfold index. destruct (Nat.eqb_spec i 0) as [->|Hi0]; [lia|].
      apply (He _ Hev). unfold ev_kind, ev_server; simpl. intros [_ Hc]. exact (Hi0 Hc). }
    assert (Hmono : (n_a s <= n_a s')%nat) by (rewrite Hna; destruct (Nat.eqb i 0); lia).
    assert (Hqo : forall j, queue_of s' j = if Nat.eqb j i then qu ++ [index] else queue_of s j).
    { intro j. unfold queue_of. rewrite Hqs. apply (list_insert_default _ _ _ _ qu). exact Hqi. }
    assert (Hqs_i : queue_of s i = qu) by (unfold queue_of; rewrite Hqi; reflexivity).
    constructor.
    + intros y Hy Hk. apply Hin in Hy as [Hy|[ ->|[_ [gap [g' [_ [_ ->]]]]]]].
      * pose proof (He y (Hrest y Hy) Hk). lia.
      * exact Hidx.
      * exfalso. apply Hk. split; reflexivity.
    + intros j c' Hc'. rewrite Hqo in Hc'. destruct (Nat.eqb_spec j i) as [->|_].
      * rewrite <- Hqs_i in Hc'. apply in_app_iff in Hc' as [Hc'|[<-|[]]].
        -- pose proof (Hqu _ _ Hc'). lia.
        -- exact Hidx.
      * pose proof (Hqu _ _ Hc'). lia.
    + intros j c' Hne. rewrite Htr in Hne.
      destruct (Nat.eqb j i && Nat.eqb c' index) eqn:E.
      * apply andb_true_iff in E as [_ E]. apply Nat.eqb_eq in E. subst c'. exact Hidx.
      * rewrite app_nil_r in Hne. pose proof (Hq _ _ Hne). lia.
    + intros j c' Hne. rewrite Ha' in Hne. pose proof (Ha _ _ Hne). lia.
    + intros j c' Hne. rewrite Hd' in Hne. pose proof (Hd _ _ Hne). lia.
    + intros c'. rewrite Htr, length_app, Hq0, Hna. unfold index.
      destruct (Nat.eqb_spec 0 i) as [<-|Hi0].
      * simpl. destruct (Nat.ltb_spec c' (n_a s)), (Nat.eqb_spec c' (n_a s)),
                 (Nat.ltb_spec c' (S (n_a s))); simpl; lia.
      * destruct (Nat.eqb_spec i 0); [congruence|]. simpl. apply Nat.add_0_r.
  - apply on_arrival_shape in H
      as [m [dur [_ [_ [Hra [_ [Hq' [Hd' [Hna [_ [Hqs Hevs]]]]]]]]]]]. simpl in *.
    apply record_time_Ok in Hra as [_ [_ Htr]].
    assert (Hc : (c < n_a s)%nat).
    { apply (He _ Hev). unfold ev_kind; simpl. intros [Hk _]. discriminate. }
    constructor; rewrite ?Hna.
    + intros y Hy Hk. rewrite Hevs in Hy. apply In_put in Hy as [Hy| ->].
      * exact (He y (Hrest y Hy) Hk).
      * exact Hc.
    + intros j c'. unfold queue_of. rewrite Hqs. apply Hqu.
    + rewrite Hq'. exact Hq.
    + intros j c' Hne. rewrite Htr in Hne.
      destruct (Nat.eqb j i && Nat.eqb c' c) eqn:E.
      * apply andb_true_iff in E as [_ E]. apply Nat.eqb_eq in E. subst c'. exact Hc.
      * rewrite app_nil_r in Hne. exact (Ha _ _ Hne).
    + rewrite Hd'. exact Hd.
    + rewrite Hq'. exact Hq0.
  - apply on_finish_shape in H
      as [qu [Hqi [Hrd [_ [Hq' [Ha' [Hna [_ [Hqs Hin]]]]]]]]]. simpl in *.
    apply record_time_Ok in Hrd as [_ [_ Htr]].
    assert (Hc : (c < n_a s)%nat).
    { apply (He _ Hev). unfold ev_kind; simpl. intros [Hk _]. discriminate. }
    assert (Hqs_i : queue_of s i = qu) by (unfold queue_of; rewrite Hqi; reflexivity).
    assert (Hqo : forall j, queue_of s' j = if Nat.eqb j i then tl qu else queue_of s j).
    { intro j. unfold queue_of. rewrite Hqs. apply (list_insert_default _ _ _ _ qu). exact Hqi. }
    constructor; rewrite ?Hna.
    + intros y Hy Hk.
      apply Hin in Hy as [Hy|[[h [r [Hh ->]]]|[_ [j [g' [_ ->]]]]]].
      * exact (He y (Hrest y Hy) Hk).
      * unfold ev_client; simpl. apply (Hqu i). rewrite Hqs_i.
        apply In_tl. rewrite Hh. left; reflexivity.
      * exact Hc.
    + intros j c' Hc'. rewrite Hqo in Hc'. destruct (Nat.eqb_spec j i) as [->|_].
      * apply (Hqu i). rewrite Hqs_i. apply In_tl. exact Hc'.
      * exact (Hqu _ _ Hc').
    + rewrite Hq'. exact Hq.
    + rewrite Ha'. exact Ha.
    + intros j c' Hne. rewrite Htr in Hne.
      destruct (Nat.eqb j i && Nat.eqb c' c) eqn:E.
      * apply andb_true_iff in E as [_ E]. apply Nat.eqb_eq in E. subst c'. exact Hc.
      * rewrite app_nil_r in Hne. exact (Hd _ _ Hne).
    + rewrite Hq'. exact Hq0.
Qed.

Lemma init_ids_inv g (s : State G) :
  init_state R n lam g = Ok s -> ids_inv s.
Proof.
  unfold init_state. intro H. inv_bind H. destruct x as [x g']. cbv beta iota in H.
  injection H as <-.
  assert (Htr : forall i c, trace_of (repeat ∅ n) i c = []).
  { intros i c. unfold trace_of. rewrite lookup_repeat. destruct (Nat.ltb i n); reflexivity. }
  assert (Hqo : forall i, default [] (repeat (@nil nat) n !! i) = []).
  { intros i. rewrite lookup_repeat. destruct (Nat.ltb i n); reflexivity. }
  constructor; unfold queue_of; simpl.
  - intros y [<-|[]] Hk. exfalso. apply Hk. split; reflexivity.
  - intros i c. rewrite Hqo. simpl. contradiction.
  - intros i c. rewrite Htr. contradiction.
  - intros i c. rewrite Htr. contradiction.
  - intros i c. rewrite Htr. contradiction.
  - intros c. rewrite Htr. reflexivity.
Qed.

Lemma reachable_ids_inv (s : State G) :
  reachable R time n lam mu p finish s -> ids_inv s.
Proof.
  intro Hr. induction Hr as [g s Hs|s s' Hr IH Hg Hs].
  - eapply init_ids_inv; exact Hs.
  - exact (step_ids_inv s s' IH Hs).
Qed.

End Ids.

(** ** Server indices and exceptions *)

Lemma bind_ex {A B} (m : res A) (f : A -> res B) x :
  m = Ok x -> (exists y, f x = Ok y) -> exists y, (m ≫= f) = Ok y.
Proof. intros -> [y Hy]. exists y. exact Hy. Qed.

Lemma py_get_lt {A} (l : list A) i : (i < length l)%nat -> exists x, py_get l i = Ok x.
Proof.
  intro H. destruct (lookup_lt_is_Some_2 l i H) as [x Hx].
  exists x. unfold py_get. rewrite Hx. reflexivity.
Qed.

Lemma record_time_ex (m : list (gmap nat (list Q))) i k x :
  (i < length m)%nat -> exists m', record_time m i k x = Ok m'.
Proof.
  intro H. unfold record_time. destruct (py_get_lt m i H) as [mi Hmi].
  eapply bind_ex; [exact Hmi|]. eexists; reflexivity.
Qed.

Section Range.
Context {G : Type} (R : Rng G).
Variables (time : Q) (n : nat) (lam : Q) (mu p : list Q) (finish : bool).

Lemma choice_In (l : list nat) g x g' : choice R l g = Ok (x, g') -> In x l.
Proof.
  unfold choice. destruct (Nat.eqb (length l) 0); [discriminate|].
  destruct (randbelow R (length l) g) as [k g1]. intro H. inv_bind H.
  injection H as <- _. apply py_get_Ok in Hm.
  apply list_elem_of_In. eapply list_elem_of_lookup_2. exact Hm.
Qed.

Lemma next_server_lt i g j g' :
  (i < n)%nat -> Z.eqb (Z.of_nat i) (Z.of_nat n - 1) = false ->
  next_server R p i g = Ok (j, g') -> (j < n)%nat.
Proof.
  intros Hi Hz H. apply Z.eqb_neq in Hz. unfold next_server in H.
  destruct (Nat.eqb i 0) eqn:Ei; [injection H as <- _; lia|].
  destruct (uniform R 0 1 g) as [u g1]. inv_bind H.
  destruct (Qltb x u); [injection H as <- _; lia|].
  apply choice_In, in_seq in H. lia.
Qed.

Lemma step_in_range (s s' : State G) :
  (1 <= n)%nat -> servers_in_range n s ->
  step R time n lam mu p s = Ok s' -> servers_in_range n s'.
Proof.
  intros Hn Hs H. unfold step in H.
  destruct (pq_get (events s)) as [[ev rest]|] eqn:Eg; [|injection H as <-; exact Hs].
  pose proof (pq_get_perm _ _ _ Eg) as Hp.
  assert (Hrest : forall y, In y (ev :: rest) -> (ev_server y < n)%nat).
  { intros y Hy. apply Hs. apply (Permutation_in _ (Permutation_sym Hp)). exact Hy. }
  assert (Hi : (ev_server ev < n)%nat) by (apply Hrest; left; reflexivity).
  destruct ev as [tm [[e c] i]]. unfold ev_server in Hi. simpl in Hi, H.
  intros y Hy. destruct e.
  - apply on_asigned_shape in H as [_ [_ [_ [_ [_ [_ [_ [_ [_ Hin]]]]]]]]].
    apply Hin in Hy as [Hy|[ ->|[_ [gap [g' [_ [_ ->]]]]]]].
    + apply Hrest. right. exact Hy.
    + exact Hi.
    + exact Hn.
  - apply on_arrival_shape in H as [m [dur [_ [_ [_ [_ [_ [_ [_ [_ [_ Hevs]]]]]]]]]]].
    rewrite Hevs in Hy. apply In_put in Hy as [Hy| ->].
    + apply Hrest. right. exact Hy.
    + exact Hi.
  - apply on_finish_shape in H as [qu [_ [_ [_ [_ [_ [_ [_ [_ Hin]]]]]]]]].
    apply Hin in Hy as [Hy|[[h [r [_ ->]]]|[Hz [j [g' [Hj ->]]]]]].
    + apply Hrest. right. exact Hy.
    + exact Hi.
    + exact (next_server_lt i _ j g' Hi Hz Hj).
Qed.

Lemma reachable_in_range (s : State G) :
  (1 <= n)%nat -> reachable R time n lam mu p finish s -> servers_in_range n s.
Proof.
  intros Hn Hr. induction Hr as [g s Hs|s s' Hr IH Hg Hs].
  - unfold init_state in Hs. inv_bind Hs. destruct x as [x g']. cbv beta iota in Hs.
    injection Hs as <-. intros y [<-|[]]. exact Hn.
  - exact (step_in_range s s' Hn IH Hs).
Qed.

Hypothesis Hlam : ~ lam == 0.
Hypothesis Hmu : Forall (fun m => ~ m == 0) mu.
Hypothesis Hmul : (n <= length mu)%nat.
Hypothesis Hpl : (n <= length p)%nat.
Hypothesis Hrb : forall k g, (0 < k)%nat -> (fst (randbelow R k g) < k)%nat.

Lemma expovariate_ex r g : ~ r == 0 -> exists y, expovariate R r g = Ok y.
Proof.
  intro Hr. unfold expovariate. destruct (std_exp R g) as [x g'].
  destruct (Qeq_bool r 0) eqn:E; [apply Qeq_bool_iff in E; contradiction|eauto].
Qed.

Lemma next_server_ex i g : (i < n)%nat -> exists y, next_server R p i g = Ok y.
Proof.
  intro Hi. unfold next_server. destruct (Nat.eqb i 0) eqn:Ei; [eauto|].
  apply Nat.eqb_neq in Ei.
  destruct (uniform R 0 1 g) as [u g1].
  destruct (py_get_lt p i ltac:(lia)) as [pi Hpi].
  eapply bind_ex; [exact Hpi|]. cbv beta.
  destruct (Qltb pi u); [eauto|].
  unfold choice. rewrite length_seq.
  destruct (Nat.eqb_spec i 0) as [|_]; [contradiction|].
  pose proof (Hrb i g1 ltac:(lia)) as Hk.
  destruct (randbelow R i g1) as [k g2]. simpl in Hk.
  destruct (py_get_lt (seq 0 i) k ltac:(rewrite length_seq; lia)) as [x Hx].
  eapply bind_ex; [exact Hx|]. eexists; reflexivity.
Qed.

Lemma step_ex (s : State G) :
  (1 <= n)%nat -> reachable R time n lam mu p finish s ->
  exists s', step R time n lam mu p s = Ok s'.
Proof.
  intros Hn Hr.
  pose proof (reachable_in_range s Hn Hr) as Hs.
  pose proof (reachable_inv_le R time n lam mu p finish s Hr) as Hinv.
  destruct Hinv as [Hq Ha Hd Hqu _ _ _ _ _ _].
  unfold step. destruct (pq_get (events s)) as [[ev rest]|] eqn:Eg; [|eauto].
  pose proof (pq_get_perm _ _ _ Eg) as Hp.
  assert (Hi : (ev_server ev < n)%nat).
  { apply Hs. apply (Permutation_in _ (Permutation_sym Hp)). left; reflexivity. }
  destruct ev as [tm [[e c] i]]. unfold ev_server in Hi. simpl in Hi. simpl.
  destruct e.
  - unfold on_asigned.
    destruct (record_time_ex (q s) i (if Nat.eqb i 0 then n_a s else c) tm
                ltac:(lia)) as [q' Hq'].
    eapply bind_ex; [exact Hq'|]. cbv beta.
    destruct (py_get_lt (queue s) i ltac:(lia)) as [qu Hqi].
    eapply bind_ex; [exact Hqi|]. cbv beta.
    destruct (Nat.eqb i 0); [|eexists; reflexivity].
    destruct (expovariate_ex lam (rng s) Hlam) as [[x g'] Hx].
    eapply bind_ex; [exact Hx|]. eexists; reflexivity.
  - unfold on_arrival.
    destruct (record_time_ex (a s) i c tm ltac:(lia)) as [a' Ha'].
    eapply bind_ex; [exact Ha'|]. cbv beta.
    destruct (py_get_lt mu i ltac:(lia)) as [m Hm].
    eapply bind_ex; [exact Hm|]. cbv beta.
    apply py_get_Ok in Hm.
    destruct (expovariate_ex m (rng s) (Forall_lookup_1 _ _ _ _ Hmu Hm)) as [[x g'] Hx].
    eapply bind_ex; [exact Hx|]. eexists; reflexivity.
  - unfold on_finish.
    destruct (py_get_lt (queue s) i ltac:(lia)) as [qu Hqi].
    eapply bind_ex; [exact Hqi|]. cbv beta.
    destruct (record_time_ex (d s) i c tm ltac:(lia)) as [d' Hd'].
    eapply bind_ex; [exact Hd'|]. cbv beta.
    destruct (Z.eqb (Z.of_nat i) (Z.of_nat n - 1)); [eexists; reflexivity|].
    destruct (next_server_ex i (rng s) Hi) as [[j g'] Hj].
    eapply bind_ex; [exact Hj|]. eexists; reflexivity.
Qed.

End Range.

(** ** Properties of a run *)

Section RunProperties.
Context {G : Type} (R : Rng G).
Variables (time : Q) (n : nat) (lam : Q) (mu p : list Q) (finish : bool).

(** Every server serves at most one client at a time, the head of its
    FIFO: an empty FIFO has no pending [ARRIVAL] or [FINISH] entry, a
    non-empty one has exactly one, and it carries the head's id. *)
Theorem server_serves_queue_head (s : State G) i :
  reachable R time n lam mu p finish s ->
  (queue_of s i = [] -> count_ev (in_service_at i) (events s) = 0%nat) /\
  (forall h tl, queue_of s i = h :: tl ->
     count_ev (in_service_at i) (events s) = 1%nat /\
     forall x, In x (events s) -> in_service_at i x = true -> ev_client x = h).
Proof.
  intro Hr. pose proof (reachable_inv_le R time n lam mu p finish s Hr) as Hinv.
  split; [apply (inv_idle _ _ _ Hinv)|apply (inv_busy _ _ _ Hinv)].
Qed.

(** Each iteration raises [n_a] or [n_d] by at most one in total and never
    lowers either counter. *)
Theorem counters_never_decrease (s s' : State G) :
  step R time n lam mu p s = Ok s' ->
  (n_a s <= n_a s' /\ n_d s <= n_d s' /\ n_a s' + n_d s' <= S (n_a s + n_d s))%nat.
Proof.
  unfold step. intro H.
  destruct (pq_get (events s)) as [[ev rest]|]; [|injection H as <-; lia].
  destruct ev as [tm [[e c] i]]. simpl in H. destruct e.
  - apply on_asigned_shape in H as [qu [_ [_ [_ [_ [_ [Hnd [Hna _]]]]]]]].
    simpl in *. rewrite Hna, Hnd. destruct (Nat.eqb i 0); lia.
  - apply on_arrival_shape in H as [m [dur [_ [_ [_ [_ [_ [_ [Hna [Hnd _]]]]]]]]]].
    simpl in *. rewrite Hna, Hnd. lia.
  - apply on_finish_shape in H as [qu [_ [_ [_ [_ [_ [Hna [Hnd _]]]]]]]].
    simpl in *. rewrite Hna, Hnd. destruct (Z.eqb _ _); lia.
Qed.

(** Every client id that has a record in [q], [a] or [d], or waits in a
    FIFO, is below [n_a]: the reducer's [for c in range(n_a)] visits every
    recorded client. *)
Theorem recorded_ids_below_n_a (s : State G) i c :
  reachable R time n lam mu p finish s ->
  trace_of (q s) i c <> [] \/ trace_of (a s) i c <> [] \/
  trace_of (d s) i c <> [] \/ In c (queue_of s i) ->
  (c < n_a s)%nat.
Proof.
  intros Hr Hc. pose proof (reachable_ids_inv R time n lam mu p finish s Hr) as Hids.
  destruct Hc as [Hc|[Hc|[Hc|Hc]]];
    [exact (ids_q _ Hids i c Hc)|exact (ids_a _ Hids i c Hc)|
     exact (ids_d _ Hids i c Hc)|exact (ids_queue _ Hids i c Hc)].
Qed.

(** At server 0 every id below [n_a] has exactly one queue-entry record
    and no other id has any: a client sent back to server 0 is recorded
    under a fresh id. *)
Theorem server0_one_record_per_id (s : State G) c :
  reachable R time n lam mu p finish s ->
  length (trace_of (q s) 0 c) = if Nat.ltb c (n_a s) then 1%nat else 0%nat.
Proof.
  intro Hr. exact (ids_q0 _ (reachable_ids_inv R time n lam mu p finish s Hr) c).
Qed.

Section Rates.
Hypothesis Hexp : forall g, 0 <= fst (std_exp R g).
Hypothesis Hlam : 0 < lam.
Hypothesis Hmu : Forall (fun m => 0 < m) mu.

(** With positive rates and non-negative exponential draws, no pending
    event is earlier than the clock, and an iteration never moves the
    clock backwards. *)
Theorem clock_never_goes_back (s s' : State G) :
  reachable R time n lam mu p finish s ->
  step R time n lam mu p s = Ok s' ->
  t s <= t s' /\ forall x, In x (events s') -> t s' <= fst x.
Proof.
  intros Hr Hs.
  assert (Hti : time_inv s) by (eapply reachable_time_inv; eauto).
  destruct (step_time_inv R time n lam mu p Hexp Hlam Hmu s s' Hti Hs) as [Hti' Hle].
  split; [exact Hle|exact (ti_events _ Hti')].
Qed.

(** Under the same conditions every list [q[i][c]], [a[i][c]], [d[i][c]]
    is sorted and holds no time after the clock [t]. *)
Theorem recorded_times_sorted (s : State G) i c :
  reachable R time n lam mu p finish s ->
  trace_sorted (t s) (trace_of (q s) i c) /\ trace_sorted (t s) (trace_of (a s) i c) /\
  trace_sorted (t s) (trace_of (d s) i c).
Proof.
  intro Hr. assert (Hti : time_inv s) by (eapply reachable_time_inv; eauto).
  split; [apply (ti_q _ Hti)|split; [apply (ti_a _ Hti)|apply (ti_d _ Hti)]].
Qed.

End Rates.

Section WellFormed.
Hypothesis Hn : (1 <= n)%nat.
Hypothesis Hlam : ~ lam == 0.
Hypothesis Hmu : Forall (fun m => ~ m == 0) mu.
Hypothesis Hmul : (n <= length mu)%nat.
Hypothesis Hpl : (n <= length p)%nat.
Hypothesis Hrb : forall k g, (0 < k)%nat -> (fst (randbelow R k g) < k)%nat.

Lemma sim_loop_never_raises fuel (s : State G) e :
  reachable R time n lam mu p finish s ->
  sim_loop R time n lam mu p finish fuel s <> Raise e.
Proof.
  revert s; induction fuel as [|fuel IH]; intros s Hr; simpl; [discriminate|].
  destruct (loop_guard time finish s) eqn:Eg; [|discriminate].
  destruct (step_ex R time n lam mu p finish Hlam Hmu Hmul Hpl Hrb s Hn Hr) as [s' Hs'].
  rewrite Hs'. simpl. apply IH. eapply reach_step; eauto.
Qed.

(** With at least one server, non-zero rates, [mu_wait_time] and [p] at
    least [n] long and [_randbelow(k)] below [k], [servers_simulation]
    never raises. *)
Theorem servers_simulation_never_raises fuel g e :
  servers_simulation R time n lam mu p finish fuel g <> Raise e.
Proof.
  unfold servers_simulation, run_state.
  assert (Hi : exists s0, init_state R n lam g = Ok s0).
  { unfold init_state. destruct (expovariate_ex R lam g Hlam) as [[x g'] Hx].
    eapply bind_ex; [exact Hx|]. eexists; reflexivity. }
  destruct Hi as [s0 Hs0]. rewrite Hs0. simpl.
  pose proof (sim_loop_never_raises fuel s0 e (reach_init _ _ _ _ _ _ _ g s0 Hs0)) as Hl.
  destruct (sim_loop R time n lam mu p finish fuel s0); simpl; congruence.
Qed.

End WellFormed.

End RunProperties.

(** A completed run in drain mode ([finish] true) ends with no event and
    every FIFO empty, and for every server [i] and client [c] the lists
    [q[i][c]], [a[i][c]] and [d[i][c]] have the same length: every queue
    entry was served and left. *)
Theorem drained_run_serves_every_entry {G} (R : Rng G) time n lam mu p fuel g
    (s : State G) :
  run_state R time n lam mu p true fuel g = Ok s ->
  events s = [] /\ (forall i, queue_of s i = []) /\
  forall i c, length (trace_of (q s) i c) = length (trace_of (d s) i c) /\
              length (trace_of (a s) i c) = length (trace_of (d s) i c).
Proof.
  intro H.
  pose proof (run_state_reachable R time n lam mu p true fuel g s H) as Hr.
  pose proof (reachable_inv_le R time n lam mu p true s Hr) as Hinv.
  pose proof (run_state_exit R time n lam mu p true fuel g s H) as Hx.
  unfold loop_guard in Hx. simpl in Hx.
  apply negb_false_iff, Nat.eqb_eq, length_zero_iff_nil in Hx.
  assert (Hq : forall i, queue_of s i = []).
  { intro i. destruct (queue_of s i) as [|h tl] eqn:Eq; [reflexivity|].
    destruct (inv_busy _ _ _ Hinv i h tl Eq) as [H1 _]. rewrite Hx in H1. discriminate. }
  split; [exact Hx|]. split; [exact Hq|]. intros i c.
  rewrite (inv_q_count _ _ _ Hinv i c), (inv_a_count _ _ _ Hinv i c), Hq, Hx. simpl. lia.
Qed.

(** ** The replication controller *)

Lemma all_some_repeat (v : Q) k : all_some (repeat (Some v) k) = Some (repeat v k).
Proof. induction k as [|k IH]; simpl; [reflexivity|]. rewrite IH. reflexivity. Qed.

Lemma map_repeat_Q (f : Q -> Q) (v : Q) k : map f (repeat v k) = repeat (f v) k.
Proof. induction k as [|k IH]; simpl; [reflexivity|]. rewrite IH. reflexivity. Qed.

Lemma repeat_snoc {A} (x : A) k : repeat x k ++ [x] = repeat x (S k).
Proof. induction k as [|k IH]; simpl; [reflexivity|]. rewrite IH. reflexivity. Qed.

Lemma lenQ_repeat {A} (x : A) k : lenQ (repeat x k) = inject_Z (Z.of_nat k).
Proof. unfold lenQ. rewrite repeat_length. reflexivity. Qed.

Lemma sumQ_repeat (v : Q) k : sumQ (repeat v k) == inject_Z (Z.of_nat k) * v.
Proof.
  induction k as [|k IH]; [reflexivity|].
  unfold sumQ in *. simpl fold_right. rewrite IH.
  assert (E : inject_Z (Z.of_nat (S k)) == inject_Z (Z.of_nat k) + 1)
    by (rewrite Nat2Z.inj_succ, <- Z.add_1_r, inject_Z_plus; reflexivity).
  rewrite E. ring.
Qed.

Lemma Qltb_true x y : x < y -> Qltb x y = true.
Proof.
  intro H. unfold Qltb. destruct (Qle_bool y x) eqn:E; [|reflexivity].
  apply Qle_bool_iff in E. lra.
Qed.

(** A sequence of [k > 0] equal means passes the convergence test for any
    positive threshold: its variance is 0. *)
Lemma converged_repeat (v thr : Q) k :
  0 < thr -> (0 < k)%nat -> converged (repeat (Some v) k) thr = true.
Proof.
  intros Hthr Hk. unfold converged, np_var. rewrite all_some_repeat. simpl.
  destruct k as [|k']; [lia|]. set (k := S k') in *. cbv beta iota zeta.
  assert (Hk0 : 0 < inject_Z (Z.of_nat k)).
  { unfold Qlt. simpl. lia. }
  assert (Hm : sumQ (repeat v k) / lenQ (repeat v k) == v).
  { rewrite lenQ_repeat, sumQ_repeat. field. lra. }
  set (m := sumQ (repeat v k) / lenQ (repeat v k)) in *.
  change (v :: repeat v k') with (repeat v k).
  assert (Hvar : sumQ (map (fun x => (x - m) * (x - m)) (repeat v k)) / lenQ (repeat v k) == 0).
  { rewrite map_repeat_Q, sumQ_repeat, lenQ_repeat, Hm. field. lra. }
  assert (Hmatch : forall r : Q,
    match repeat v k with [] => None | _ :: _ => Some r end = Some r) by reflexivity.
  rewrite Hmatch, lenQ_repeat.
  assert (Hb : 0 < thr * inject_Z (Z.of_nat k)) by (apply Qmult_lt_0_compat; assumption).
  rewrite (Qltb_true _ _ Hb). cbn [andb]. apply Qltb_true. rewrite Hvar.
  apply Qmult_lt_0_compat; exact Hb.
Qed.

Section Controller.
Context {G : Type} (metrics : G -> res (Metrics * G)) (thr v : Q).
Hypothesis Hthr : 0 < thr.
Hypothesis Hconst : forall g, exists m g', metrics g = Ok (m, g') /\
  np_mean (map Some (m_system_time m)) = Some v.

Lemma replicate_loop_constant fuel : forall it g wts uts,
  (it < min_iterations)%nat -> (it + fuel = max_iterations)%nat ->
  length wts = it -> length uts = it ->
  exists wt ut,
    replicate_loop metrics thr fuel it (repeat (Some v) it) wts uts g =
      Ok (repeat (Some v) min_iterations, wt, ut) /\
    length wt = min_iterations /\ length ut = min_iterations.
Proof.
  induction fuel as [|fuel IH]; intros it g wts uts Hit Hf Hw Hu.
  - exfalso. unfold min_iterations, max_iterations in *. lia.
  - cbn [replicate_loop]. destruct (Hconst g) as [m [g' [Hg Hv]]]. rewrite Hg.
    cbn [mbind res_bind]. rewrite Hv, repeat_snoc.
    assert (Emax : Nat.leb max_iterations (S it) = false).
    { apply Nat.leb_gt. unfold min_iterations, max_iterations in *. lia. }
    rewrite Emax.
    destruct (Nat.eq_dec (S it) min_iterations) as [Eit|Eit].
    + rewrite Eit, (proj2 (Nat.leb_le _ _) (le_n _)), converged_repeat;
        [|exact Hthr|unfold min_iterations; lia].
      do 2 eexists. split; [reflexivity|].
      rewrite !length_app, Hw, Hu. simpl. split; lia.
    + assert (Emin : Nat.leb min_iterations (S it) = false) by (apply Nat.leb_gt; lia).
      rewrite Emin.
      apply IH; [lia|lia| |]; rewrite length_app; simpl; lia.
Qed.

(** If every replication succeeds and reports the same (non-[nan])
    system-time mean [v], the loop of [run_simulation] stops after exactly
    [min_iterations] replications, for any positive threshold. *)
Theorem constant_replications_stop_at_min g :
  exists wt ut,
    replicate_loop metrics thr max_iterations 0 [] [] [] g =
      Ok (repeat (Some v) min_iterations, wt, ut) /\
    length wt = min_iterations /\ length ut = min_iterations.
Proof.
  apply (replicate_loop_constant max_iterations 0 g [] []);
    [unfold min_iterations; lia|reflexivity|reflexivity|reflexivity].
Qed.

End Controller.

(** ** The event order *)

(** The order [PriorityQueue] uses on entries [(t, (e, c, i))] is a strict
    total order: comparing the other way round gives the opposite result,
    [<] is transitive, and two entries are equivalent only when their
    times are [==] and their kind, client and server coincide. *)
Theorem event_order_total (x y z : Event) :
  event_cmp y x = CompOpp (event_cmp x y) /\
  (event_cmp x y = Lt -> event_cmp y z = Lt -> event_cmp x z = Lt) /\
  (event_cmp x y = Eq -> fst x == fst y /\ snd x = snd y).
Proof.
  split; [apply event_cmp_antisym|]. split.
  - intros Hxy Hyz. apply (event_cmp_lt_le x y z Hxy). rewrite Hyz. discriminate.
  - destruct x as [t1 [[e1 c1] i1]], y as [t2 [[e2 c2] i2]]; simpl.
    destruct (Qcompare_spec t1 t2); try discriminate.
    destruct (Nat.compare_spec (value e1) (value e2)) as [Ev| |]; try discriminate.
    destruct (Nat.compare_spec c1 c2) as [->| |]; try discriminate.
    destruct (Nat.compare_spec i1 i2) as [->| |]; try discriminate.
    intros _. split; [assumption|].
    destruct e1, e2; simpl in Ev; try discriminate; reflexivity.
Qed.

(** ** Waiting and service times *)

Lemma inv_lengths_ordered {G} n exact (s : State G) i c :
  inv n exact s ->
  (length (trace_of (d s) i c) <= length (trace_of (a s) i c) <=
   length (trace_of (q s) i c))%nat.
Proof.
  intro Hinv.
  rewrite (inv_q_count _ _ _ Hinv i c), (inv_a_count _ _ _ Hinv i c).
  assert (Hm : (count_ev (finish_of c i) (events s) <=
                count_ev (in_service_at i) (events s))%nat).
  { apply count_ev_mono. intros x. unfold finish_of, in_service_at.
    destruct (ev_kind x); try discriminate. intro H.
    apply andb_true_iff in H as [_ H]. exact H. }
  assert (Hfin : (count_ev (finish_of c i) (events s) <=
                  count_occ Nat.eq_dec (queue_of s i) c)%nat).
  { destruct (queue_of s i) as [|h tl] eqn:Eq.
    - rewrite (inv_idle _ _ _ Hinv i Eq) in Hm. lia.
    - destruct (inv_busy _ _ _ Hinv i h tl Eq) as [H1 H2].
      destruct (count_ev (finish_of c i) (events s)) as [|k] eqn:Ek; [lia|].
      destruct (count_ev_pos (finish_of c i) (events s)) as [x [Hx Hf]]; [lia|].
      assert (Hs : in_service_at i x = true).
      { unfold finish_of, in_service_at in *. destruct (ev_kind x); try discriminate.
        apply andb_true_iff in Hf as [_ Hf]. exact Hf. }
      pose proof (H2 x Hx Hs) as Hh.
      unfold finish_of in Hf. destruct (ev_kind x); try discriminate.
      apply andb_true_iff in Hf as [Hc _]. apply Nat.eqb_eq in Hc.
      subst h. simpl. destruct (Nat.eq_dec (ev_client x) c); [|congruence]. lia. }
  lia.
Qed.

Lemma nth_snoc_lt (l : list Q) x k : (k < length l)%nat -> nth k (l ++ [x]) 0 = nth k l 0.
Proof. intro H. apply app_nth1. exact H. Qed.

Lemma nth_snoc_eq (l : list Q) x : nth (length l) (l ++ [x]) 0 = x.
Proof. rewrite app_nth2 by lia. rewrite Nat.sub_diag. reflexivity. Qed.

Lemma trace_sorted_nth now l k : trace_sorted now l -> (k < length l)%nat -> nth k l 0 <= now.
Proof.
  intros [_ Hf] Hk. rewrite List.Forall_forall in Hf. apply Hf. apply nth_In. exact Hk.
Qed.

(** A trace after an append at [(i, k)]: the old entries keep their place. *)
Lemma trace_snoc_cases (m m' : list (gmap nat (list Q))) i k x j c :
  (forall j c, trace_of m' j c =
               trace_of m j c ++ (if Nat.eqb j i && Nat.eqb c k then [x] else [])) ->
  (trace_of m' j c = trace_of m j c /\ (Nat.eqb j i && Nat.eqb c k) = false) \/
  (trace_of m' j c = trace_of m j c ++ [x] /\ j = i /\ c = k).
Proof.
  intro Htr. rewrite Htr. destruct (Nat.eqb_spec j i), (Nat.eqb_spec c k); simpl;
    [right; auto|left; rewrite app_nil_r; auto ..].
Qed.

Section Pairing.
Context {G : Type} (R : Rng G).
Variables (time : Q) (n : nat) (lam : Q) (mu p : list Q) (finish : bool).
Hypothesis Hexp : forall g, 0 <= fst (std_exp R g).
Hypothesis Hlam : 0 < lam.
Hypothesis Hmu : Forall (fun m => 0 < m) mu.

Lemma step_pair_inv (s s' : State G) :
  inv n false s -> time_inv s -> pair_inv s ->
  step R time n lam mu p s = Ok s' -> pair_inv s'.
Proof.
  intros Hinv Hti [Hqa Had] H. unfold step in H.
  destruct (pq_get (events s)) as [[ev rest]|] eqn:Eg;
    [|injection H as <-; constructor; assumption].
  pose proof (pq_get_perm _ _ _ Eg) as Hp.
  assert (Hev : t s <= fst ev).
  { apply (ti_events _ Hti). apply (Permutation_in _ (Permutation_sym Hp)). left; reflexivity. }
  apply (inv_perm n false s _ Hp) in Hinv.
  change (inv n false (with_events (with_events s rest) (ev :: events (with_events s rest))))
    in Hinv.
  assert (Hlen : forall j c', (length (trace_of (d s) j c') <= length (trace_of (a s) j c') <=
                               length (trace_of (q s) j c'))%nat)
    by (intros j c'; exact (inv_lengths_ordered n false _ j c' Hinv)).
  assert (Hqt : forall j c' k, (k < length (trace_of (q s) j c'))%nat ->
                               nth k (trace_of (q s) j c') 0 <= t s)
    by (intros; apply trace_sorted_nth; [apply (ti_q _ Hti)|assumption]).
  assert (Hat : forall j c' k, (k < length (trace_of (a s) j c'))%nat ->
                               nth k (trace_of (a s) j c') 0 <= t s)
    by (intros; apply trace_sorted_nth; [apply (ti_a _ Hti)|assumption]).
  destruct ev as [tm [[e c] i]]. simpl in Hev, H.
  destruct e.
  - apply on_asigned_shape in H
      as [qu [_ [Hrq [_ [Ha' [Hd' [_ [_ [_ _]]]]]]]]]. simpl in *.
    apply record_time_Ok in Hrq as [_ [_ Htr]].
    constructor; rewrite ?Ha', ?Hd'.
    + intros j c' k Hk. specialize (Hlen j c').
      destruct (trace_snoc_cases _ _ _ _ _ j c' Htr) as [[-> _]|[-> _]].
      * apply Hqa; exact Hk.
      * rewrite nth_snoc_lt by lia. apply Hqa; exact Hk.
    + exact Had.
  - destruct (in_service_head n false _ _ Hinv) as [_ [tl [Hqi Hc0]]]; [discriminate|].
    unfold ev_server, ev_client in Hqi, Hc0; simpl in Hqi, Hc0.
    assert (Hlt : (length (trace_of (a s) i c) < length (trace_of (q s) i c))%nat).
    { pose proof (inv_q_count _ _ _ Hinv i c) as E1.
      pose proof (inv_a_count _ _ _ Hinv i c) as E2.
      cbn [with_events q a d events] in E1, E2. rewrite E1, E2.
      cbn [count_ev]. autorewrite with classify.
      assert (Hm : (count_ev (finish_of c i) rest <= count_ev (in_service_at i) rest)%nat).
      { apply count_ev_mono. intros x. unfold finish_of, in_service_at.
        destruct (ev_kind x); try discriminate. intro Hf.
        apply andb_true_iff in Hf as [_ Hf]. exact Hf. }
      rewrite !queue_of_with_events in *. rewrite Hqi. simpl.
      destruct (Nat.eq_dec c c); [|congruence]. lia. }
    apply on_arrival_shape in H
      as [m [dur [_ [_ [Hra [_ [Hq' [Hd' [_ [_ [_ _]]]]]]]]]]]. simpl in *.
    apply record_time_Ok in Hra as [_ [_ Htr]].
    constructor; rewrite ?Hq', ?Hd'.
    + intros j c' k Hk.
      destruct (trace_snoc_cases _ _ _ _ _ j c' Htr) as [[E _]|[E [-> ->]]];
        rewrite E in *; [apply Hqa; exact Hk|].
      rewrite length_app in Hk. simpl in Hk.
      destruct (Nat.eq_dec k (length (trace_of (a s) i c))) as [->|Hne].
      * rewrite nth_snoc_eq. pose proof (Hqt i c _ Hlt). lra.
      * rewrite nth_snoc_lt by lia. apply Hqa. lia.
    + intros j c' k Hk. specialize (Hlen j c').
      destruct (trace_snoc_cases _ _ _ _ _ j c' Htr) as [[-> _]|[-> _]].
      * apply Had; exact Hk.
      * rewrite nth_snoc_lt by lia. apply Had; exact Hk.
  - assert (Hlt : (length (trace_of (d s) i c) < length (trace_of (a s) i c))%nat).
    { pose proof (inv_a_count _ _ _ Hinv i c) as E2.
      cbn [with_events q a d events] in E2. rewrite E2.
      cbn [count_ev]. autorewrite with classify. rewrite !Nat.eqb_refl. simpl. lia. }
    apply on_finish_shape in H
      as [qu [_ [Hrd [_ [Hq' [Ha' [_ [_ [_ _]]]]]]]]]. simpl in *.
    apply record_time_Ok in Hrd as [_ [_ Htr]].
    constructor; rewrite ?Hq', ?Ha'.
    + exact Hqa.
    + intros j c' k Hk.
      destruct (trace_snoc_cases _ _ _ _ _ j c' Htr) as [[E _]|[E [-> ->]]];
        rewrite E in *; [apply Had; exact Hk|].
      rewrite length_app in Hk. simpl in Hk.
      destruct (Nat.eq_dec k (length (trace_of (d s) i c))) as [->|Hne].
      * rewrite nth_snoc_eq. pose proof (Hat i c _ Hlt). lra.
      * rewrite nth_snoc_lt by lia. apply Had. lia.
Qed.

Lemma reachable_pair_inv (s : State G) :
  reachable R time n lam mu p finish s -> pair_inv s.
Proof.
  intro Hr. induction Hr as [g s Hs|s s' Hr IH Hg Hs].
  - unfold init_state in Hs. inv_bind Hs. destruct x as [x g']. cbv beta iota in Hs.
    injection Hs as <-.
    assert (Htr : forall i c, trace_of (repeat ∅ n) i c = []).
    { intros i c. unfold trace_of. rewrite lookup_repeat. destruct (Nat.ltb i n); reflexivity. }
    constructor; simpl; intros i c k; rewrite !Htr; simpl; lia.
  - apply (step_pair_inv s s'); [|eapply reachable_time_inv; eauto|exact IH|exact Hs].
    exact (reachable_inv_le R time n lam mu p finish s Hr).
Qed.

End Pairing.

Lemma sumQ_nonneg (xs : list Q) : Forall (fun x => 0 <= x) xs -> 0 <= sumQ xs.
Proof.
  induction xs as [|x xs IH]; intro H; [apply Qle_refl|].
  apply Forall_cons_iff in H as [Hx H]. unfold sumQ in *. simpl.
  specialize (IH H). lra.
Qed.

Lemma lenQ_pos {A} (l : list A) : l <> [] -> 0 < lenQ l.
Proof.
  destruct l as [|x l]; [contradiction|]. intros _. unfold lenQ, Qlt. simpl. lia.
Qed.

Lemma np_mean_nonneg (xs : list Q) w :
  Forall (fun x => 0 <= x) xs -> np_mean (map Some xs) = Some w -> 0 <= w.
Proof.
  intros H E. unfold np_mean in E. rewrite all_some_map_Some in E.
  cbn [mbind option_bind] in E.
  destruct xs as [|x xs']; [discriminate|]. injection E as <-.
  apply Qle_shift_div_l; [apply lenQ_pos; discriminate|].
  rewrite Qmult_0_l. exact (sumQ_nonneg (x :: xs') H).
Qed.

Lemma zip_gap_nonneg (xs ys : list Q) :
  (forall k, (k < length ys)%nat -> (k < length xs)%nat -> nth k xs 0 <= nth k ys 0) ->
  0 <= sumQ (zip_with (fun x y => y - x) xs ys).
Proof.
  revert ys; induction xs as [|x xs IH]; intros [|y ys] H; simpl; try apply Qle_refl.
  unfold sumQ in *. simpl.
  assert (Hxy : x <= y) by (apply (H 0%nat); simpl; lia).
  assert (Hr : 0 <= fold_right Qplus 0 (zip_with (fun x y => y - x) xs ys)).
  { apply IH. intros k Hk1 Hk2. apply (H (S k)); simpl; lia. }
  lra.
Qed.

Lemma mean_gap_nonneg (xs ys den : list Q) :
  den <> [] ->
  (forall k, (k < length ys)%nat -> (k < length xs)%nat -> nth k xs 0 <= nth k ys 0) ->
  0 <= mean_gap xs ys den.
Proof.
  intros Hd H. unfold mean_gap. apply Qle_shift_div_l; [apply lenQ_pos; exact Hd|].
  rewrite Qmult_0_l. apply zip_gap_nonneg. exact H.
Qed.

Lemma Forall_flat_map_Q {A} (f : A -> list Q) (P : Q -> Prop) (l : list A) :
  (forall x, Forall P (f x)) -> Forall P (flat_map f l).
Proof.
  intro H. induction l as [|x l IH]; simpl; [constructor|].
  apply Forall_app. split; [apply H|exact IH].
Qed.

Section ReportedTimes.
Context {G : Type} (R : Rng G).
Variables (time : Q) (n : nat) (lam : Q) (mu p : list Q) (finish : bool).
Hypothesis Hexp : forall g, 0 <= fst (std_exp R g).
Hypothesis Hlam : 0 < lam.
Hypothesis Hmu : Forall (fun m => 0 < m) mu.

Lemma wait_obs_nonneg (s : State G) i c :
  reachable R time n lam mu p finish s ->
  Forall (fun x => 0 <= x) (wait_obs (t s) (q s) (a s) i c).
Proof.
  intro Hr.
  assert (Hti : time_inv s) by (eapply reachable_time_inv; eauto).
  assert (Hpi : pair_inv s) by (eapply reachable_pair_inv; eauto).
  pose proof (ti_q _ Hti i c) as Hs. pose proof (pi_qa _ Hpi i c) as Hqa.
  unfold wait_obs.
  destruct (trace_of (q s) i c) as [|q0 qr] eqn:Eq; [constructor|].
  destruct (trace_of (a s) i c) as [|a0 ar] eqn:Ea.
  - destruct Hs as [_ Hf]. apply Forall_cons_iff in Hf as [Hq0 _].
    constructor; [lra|constructor].
  - constructor; [|constructor]. apply mean_gap_nonneg; [discriminate|].
    intros k Hk _. apply Hqa. exact Hk.
Qed.

Lemma use_obs_nonneg (s : State G) i c :
  reachable R time n lam mu p finish s ->
  Forall (fun x => 0 <= x) (use_obs (q s) (a s) (d s) i c).
Proof.
  intro Hr.
  assert (Hpi : pair_inv s) by (eapply reachable_pair_inv; eauto).
  pose proof (pi_ad _ Hpi i c) as Had.
  unfold use_obs. destruct (served_at (q s) (a s) (d s) i c) eqn:Es; [|constructor].
  constructor; [|constructor]. apply mean_gap_nonneg.
  - unfold served_at in Es. apply andb_true_iff in Es as [Es _].
    apply andb_true_iff in Es as [_ Es]. apply negb_true_iff, Nat.eqb_neq in Es.
    intro E. rewrite E in Es. apply Es. reflexivity.
  - intros k Hk _. apply Had. exact Hk.
Qed.

(** With positive rates and non-negative exponential draws, every
    per-server mean wait and mean use time that [metrics_by_simulation]
    reports is [nan] or non-negative. *)
Theorem reported_means_nonnegative fuel g m g' :
  metrics_by_simulation R time n lam mu p finish fuel g = Ok (m, g') ->
  Forall (fun o => forall w, o = Some w -> 0 <= w) (m_wait_time m) /\
  Forall (fun o => forall w, o = Some w -> 0 <= w) (m_use_time m).
Proof.
  intro H. destruct (metrics_by_simulation_Ok R time n lam mu p finish fuel g m g' H)
    as [s [Hs ->]].
  pose proof (run_state_reachable R time n lam mu p finish fuel g s Hs) as Hr.
  destruct (reduce_trace_closed (t s) n (n_a s) (n_d s) (q s) (a s) (d s))
    as [_ [_ [Hw [Hu _]]]].
  rewrite Hw, Hu. split; apply List.Forall_forall; intros o Ho w ->;
    apply in_map_iff in Ho as [i [Ho _]]; refine (np_mean_nonneg _ _ _ Ho);
    apply Forall_flat_map_Q; intro c.
  - apply wait_obs_nonneg; exact Hr.
  - apply use_obs_nonneg; exact Hr.
Qed.

End ReportedTimes.

(** ** Concrete runs for the properties above *)

(** One server, horizon 3, arrival rate 1, service rate 1/2 and
    [const_rng]: clients arrive at 1 and 2, each service lasts 2, so after
    three iterations client 1 waits behind client 0. *)
Lemma server_serves_queue_head_witness :
  exists s, run_prefix const_rng 3 1 1 [1#2] [0] true 3 tt = Ok s /\
    queue_of s 0 = [0%nat; 1%nat] /\
    count_ev (in_service_at 0) (events s) = 1%nat /\
    forall x, In x (events s) -> in_service_at 0 x = true -> ev_client x = 0%nat.
Proof.
  destruct (run_prefix const_rng 3 1 1 [1#2] [0] true 3 tt) as [s| |] eqn:E;
    [|vm_compute in E; discriminate ..].
  pose proof (run_prefix_reachable const_rng _ _ _ _ _ _ _ _ _ E) as Hr.
  assert (Hq : queue_of s 0 = [0%nat; 1%nat]).
  { vm_compute in E. injection E as <-. vm_compute. reflexivity. }
  exists s. split; [reflexivity|]. split; [exact Hq|].
  exact (proj2 (@server_serves_queue_head unit const_rng 3 1 1 [1#2] [0] true s 0 Hr)
           0%nat [1%nat] Hq).
Defined.

Lemma counters_never_decrease_witness :
  exists s s', run_prefix const_rng 3 1 1 [1#2] [0] true 2 tt = Ok s /\
    step const_rng 3 1 1 [1#2] [0] s = Ok s' /\
    (n_a s <= n_a s' /\ n_d s <= n_d s' /\ n_a s' + n_d s' <= S (n_a s + n_d s))%nat.
Proof.
  destruct (run_prefix const_rng 3 1 1 [1#2] [0] true 2 tt) as [s| |] eqn:E;
    [|vm_compute in E; discriminate ..].
  destruct (step const_rng 3 1 1 [1#2] [0] s) as [s'| |] eqn:E';
    [|vm_compute in E; injection E as <-; vm_compute in E'; discriminate ..].
  exists s, s'. split; [reflexivity|]. split; [exact E'|].
  exact (@counters_never_decrease unit const_rng 3 1 1 [1#2] [0] s s' E').
Defined.

Lemma recorded_ids_below_n_a_witness :
  exists s, run_prefix const_rng 3 1 1 [1#2] [0] true 3 tt = Ok s /\
    In 1%nat (queue_of s 0) /\ (1 < n_a s)%nat.
Proof.
  destruct (run_prefix const_rng 3 1 1 [1#2] [0] true 3 tt) as [s| |] eqn:E;
    [|vm_compute in E; discriminate ..].
  pose proof (run_prefix_reachable const_rng _ _ _ _ _ _ _ _ _ E) as Hr.
  assert (Hin : In 1%nat (queue_of s 0)).
  { vm_compute in E. injection E as <-. vm_compute. auto. }
  exists s. split; [reflexivity|]. split; [exact Hin|].
  exact (@recorded_ids_below_n_a unit const_rng 3 1 1 [1#2] [0] true s 0 1
           Hr (or_intror (or_intror (or_intror Hin)))).
Defined.

Lemma server0_one_record_per_id_witness :
  exists s, run_prefix const_rng 3 1 1 [1#2] [0] true 3 tt = Ok s /\
    length (trace_of (q s) 0 1) = if Nat.ltb 1 (n_a s) then 1%nat else 0%nat.
Proof.
  destruct (run_prefix const_rng 3 1 1 [1#2] [0] true 3 tt) as [s| |] eqn:E;
    [|vm_compute in E; discriminate ..].
  pose proof (run_prefix_reachable const_rng _ _ _ _ _ _ _ _ _ E) as Hr.
  exists s. split; [reflexivity|].
  exact (@server0_one_record_per_id unit const_rng 3 1 1 [1#2] [0] true s 1 Hr).
Defined.

Lemma const_rng_exp_nonneg : forall g, 0 <= fst (std_exp const_rng g).
Proof. intro g. simpl. lra. Qed.

Lemma clock_never_goes_back_witness :
  exists s s', run_prefix const_rng 3 1 1 [1#2] [0] true 3 tt = Ok s /\
    step const_rng 3 1 1 [1#2] [0] s = Ok s' /\
    t s <= t s' /\ forall x, In x (events s') -> t s' <= fst x.
Proof.
  destruct (run_prefix const_rng 3 1 1 [1#2] [0] true 3 tt) as [s| |] eqn:E;
    [|vm_compute in E; discriminate ..].
  pose proof (run_prefix_reachable const_rng _ _ _ _ _ _ _ _ _ E) as Hr.
  destruct (step const_rng 3 1 1 [1#2] [0] s) as [s'| |] eqn:E';
    [|vm_compute in E; injection E as <-; vm_compute in E'; discriminate ..].
  exists s, s'. split; [reflexivity|]. split; [exact E'|].
  refine (@clock_never_goes_back unit const_rng 3 1 1 [1#2] [0] true
            const_rng_exp_nonneg _ _ s s' Hr E');
    [lra|constructor; [lra|constructor]].
Defined.

Lemma recorded_times_sorted_witness :
  exists s, run_prefix const_rng 3 1 1 [1#2] [0] true 5 tt = Ok s /\
    trace_sorted (t s) (trace_of (q s) 0 1) /\ trace_sorted (t s) (trace_of (a s) 0 1) /\
    trace_sorted (t s) (trace_of (d s) 0 1).
Proof.
  destruct (run_prefix const_rng 3 1 1 [1#2] [0] true 5 tt) as [s| |] eqn:E;
    [|vm_compute in E; discriminate ..].
  pose proof (run_prefix_reachable const_rng _ _ _ _ _ _ _ _ _ E) as Hr.
  exists s. split; [reflexivity|].
  refine (@recorded_times_sorted unit const_rng 3 1 1 [1#2] [0] true
            const_rng_exp_nonneg _ _ s 0 1 Hr);
    [lra|constructor; [lra|constructor]].
Defined.

Lemma servers_simulation_never_raises_witness :
  servers_simulation const_rng 3 1 1 [1#2] [0] true 100 tt <> Raise IndexError.
Proof.
  refine (@servers_simulation_never_raises unit const_rng 3 1 1 [1#2] [0] true
            _ _ _ _ _ _ 100 tt IndexError).
  - lia.
  - intro H. unfold Qeq in H. simpl in H. lia.
  - constructor; [intro H; unfold Qeq in H; simpl in H; lia|constructor].
  - simpl. lia.
  - simpl. lia.
  - intros k g Hk. simpl. lia.
Defined.

Lemma drained_run_serves_every_entry_witness :
  exists s, run_state const_rng 3 1 1 [1#2] [0] true 100 tt = Ok s /\
    events s = [] /\ (forall i, queue_of s i = []) /\
    forall i c, length (trace_of (q s) i c) = length (trace_of (d s) i c) /\
                length (trace_of (a s) i c) = length (trace_of (d s) i c).
Proof.
  destruct (run_state const_rng 3 1 1 [1#2] [0] true 100 tt) as [s| |] eqn:E;
    [|vm_compute in E; discriminate ..].
  exists s. split; [reflexivity|].
  exact (@drained_run_serves_every_entry unit const_rng 3 1 1 [1#2] [0] 100 tt s E).
Defined.

(** A replication that always reports the system times [[1]]. *)
Lemma constant_replications_stop_at_min_witness :
  exists wt ut,
    replicate_loop (fun g : unit => Ok (mkMetrics 0 0 [] [] [1], g)) (1#1000)
                   max_iterations 0 [] [] [] tt =
      Ok (repeat (Some 1) min_iterations, wt, ut) /\
    length wt = min_iterations /\ length ut = min_iterations.
Proof.
  refine (@constant_replications_stop_at_min unit
            (fun g : unit => Ok (mkMetrics 0 0 [] [] [1], g)) (1#1000) 1 _ _ tt).
  - lra.
  - intro g. exists (mkMetrics 0 0 [] [] [1]), g. split; [reflexivity|].
    vm_compute. reflexivity.
Defined.

Lemma reported_means_nonnegative_witness :
  exists m g', metrics_by_simulation const_rng 3 1 1 [1#2] [0] true 100 tt = Ok (m, g') /\
    Forall (fun o => forall w, o = Some w -> 0 <= w) (m_wait_time m) /\
    Forall (fun o => forall w, o = Some w -> 0 <= w) (m_use_time m).
Proof.
  destruct (metrics_by_simulation const_rng 3 1 1 [1#2] [0] true 100 tt)
    as [[m g']| |] eqn:E; [|vm_compute in E; discriminate ..].
  exists m, g'. split; [reflexivity|].
  refine (@reported_means_nonnegative unit const_rng 3 1 1 [1#2] [0] true
            const_rng_exp_nonneg _ _ 100 tt m g' E);
    [lra|constructor; [lra|constructor]].
Defined.

(** ** Routing *)

(** With at least one server, every pending event of a run names an
    existing server [0 <= i < n]: routing never leaves the network. *)
Theorem events_target_existing_servers {G} (R : Rng G) time n lam mu p finish
    (s : State G) :
  (1 <= n)%nat -> reachable R time n lam mu p finish s ->
  forall x, In x (events s) -> (ev_server x < n)%nat.
Proof.
  intros Hn Hr. exact (reachable_in_range R time n lam mu p finish s Hn Hr).
Qed.

Lemma events_target_existing_servers_witness :
  exists s, run_prefix const_rng 3 1 1 [1#2] [0] true 3 tt = Ok s /\
    forall x, In x (events s) -> (ev_server x < 1)%nat.
Proof.
  destruct (run_prefix const_rng 3 1 1 [1#2] [0] true 3 tt) as [s| |] eqn:E;
    [|vm_compute in E; discriminate ..].
  pose proof (run_prefix_reachable const_rng _ _ _ _ _ _ _ _ _ E) as Hr.
  exists s. split; [reflexivity|].
  refine (@events_target_existing_servers unit const_rng 3 1 1 [1#2] [0] true s _ Hr).
  lia.
Defined.
